(** * Distance-table assembly of [arbre_phylogenetique.ipynb]

    The notebook reads every file of [../data/mashDist], fills the
    dictionary [dist] and the list [names] (second code cell), then turns
    them into the list of lists [matrix] (third code cell) and hands
    [matrix] and [names] to scikit-bio's [DistanceMatrix].

    This file embeds those two cells as Rocq functions and proves the
    properties of the assembled matrix.

    Conventions of the embedding.
    - A Python [str] is a Rocq [string]; its characters are code points
      below 256, compared by code point as Python compares them.
    - A directory is what [os.listdir] answers (file names in the order
      the operating system gives them) together with the text [open]
      reads for each name.  The text is what Python sees in text mode:
      decoded, line ends already translated to the line feed.
    - A Python exception aborts the run: the cells are functions into
      [result], and [Raise] propagates through every loop.
    - [dist] is a [gmap] from pairs of names to the distance text; the
      cells only test membership and read by key, so the insertion order
      of the Python dictionary is not observed.
    - [float] is Python's builtin.  The development is parametric in it
      ([None] stands for [ValueError]); [py_float] is the reading of
      numerals to IEEE binary64 used for the concrete runs. *)

From Stdlib Require Import ZArith Ascii String List.
From Stdlib Require Import Floats.SpecFloat.
From stdpp Require Import gmap strings list sorting.

(** ** Exceptions *)

Inductive exn : Type :=
  | IndexError   (* [liste[i]] with [i] out of range *)
  | ValueError   (* [float(s)] on a text that is no numeral *)
  | OSError.     (* [open] on a name that cannot be read *)

Inductive result (A : Type) : Type :=
  | Ok (a : A)
  | Raise (e : exn).
Arguments Ok {A} a.
Arguments Raise {A} e.

Global Instance result_ret : MRet result := λ A a, Ok a.
Global Instance result_bind : MBind result := λ A B f m,
  match m with
  | Ok a => f a
  | Raise e => Raise e
  end.

Definition is_Raise {A} (r : result A) : Prop := ∃ e, r = Raise e.

(** [for x in l: s = body(s, x)], stopping at the first exception. *)
Fixpoint for_each {S A} (body : S → A → result S) (s : S) (l : list A)
    : result S :=
  match l with
  | [] => Ok s
  | x :: l' => s' ← body s x; for_each body s' l'
  end.

(** [[body(x) for x in l]] built by [append], stopping at the first
    exception. *)
Fixpoint collect {A B} (body : A → result B) (l : list A) : result (list B) :=
  match l with
  | [] => Ok []
  | x :: l' => y ← body x; ys ← collect body l'; Ok (y :: ys)
  end.

(** ** Text *)

Definition tab : ascii := "009"%char.
Definition newline : ascii := "010"%char.

(** [for line in distfile]: the lines of a text, each with its line feed;
    what follows the last line feed, when not empty, is a line too. *)
Fixpoint readlines (s : string) : list string :=
  match s with
  | EmptyString => []
  | String c s' =>
      if decide (c = newline) then String c EmptyString :: readlines s'
      else match readlines s' with
           | [] => [String c EmptyString]
           | l :: ls => String c l :: ls
           end
  end.

(** [s.split(sep)] for a one-character separator.  The answer is never
    the empty list, so the first branch of the inner [match] is never
    taken. *)
Fixpoint split (sep : ascii) (s : string) : list string :=
  match s with
  | EmptyString => [EmptyString]
  | String c s' =>
      if decide (c = sep) then EmptyString :: split sep s'
      else match split sep s' with
           | [] => [String c EmptyString]
           | f :: fs => String c f :: fs
           end
  end.

(** [l[i]] for a non-negative [i]. *)
Definition item {A} (l : list A) (i : nat) : result A :=
  match l !! i with
  | Some x => Ok x
  | None => Raise IndexError
  end.

(** [sorted(l)] on a list of [str]: ascending by code points. *)
Definition sorted (l : list string) : list string := merge_sort String.le l.

(** ** The directory *)

Record directory : Type := {
  listdir : list string;          (* [os.listdir('../data/mashDist')] *)
  content : gmap string string    (* what [open(...)] reads, per name *)
}.

Definition open (d : directory) (file : string) : result string :=
  match content d !! file with
  | Some text => Ok text
  | None => Raise OSError
  end.

(** ** Second code cell: the parse phase *)

(** The body of [for line in distfile].  The right-hand side [liste[2]]
    is evaluated before the key [(liste[0], liste[1])]. *)
Definition parse_line (st : gmap (string * string) string * list string)
    (line : string) : result (gmap (string * string) string * list string) :=
  let '(dist, names) := st in
  let liste := split tab line in
  v ← item liste 2;
  a ← item liste 0;
  b ← item liste 1;
  let dist := <[(a, b) := v]> dist in
  let names := if decide (a ∈ names) then names else names ++ [a] in
  let names := if decide (b ∈ names) then names else names ++ [b] in
  Ok (dist, names).

(** The body of [for file in sorted(files)]. *)
Definition parse_file (d : directory)
    (st : gmap (string * string) string * list string) (file : string)
    : result (gmap (string * string) string * list string) :=
  distfile ← open d file;
  for_each parse_line st (readlines distfile).

(** The whole cell: [dist] and the sorted [names]. *)
Definition parse_phase (d : directory)
    : result (gmap (string * string) string * list string) :=
  let files := listdir d in
  st ← for_each (parse_file d) (∅, []) (sorted files);
  Ok (st.1, sorted st.2).

(** ** Third code cell: the matrix phase *)

(** A cell of [matrix]: the integer [0] of the [else] branch or a float. *)
Inductive number (F : Type) : Type :=
  | PyInt (z : Z)
  | PyFloat (x : F).
Arguments PyInt {F} z.
Arguments PyFloat {F} x.

Section Matrix.
Context {F : Type} (float : string → option F).

Definition to_float (s : string) : result (number F) :=
  match float s with
  | Some x => Ok (PyFloat x)
  | None => Raise ValueError
  end.

(** The body of [for nameB in names]. *)
Definition cell (dist : gmap (string * string) string)
    (nameA nameB : string) : result (number F) :=
  let key := (nameA, nameB) in
  let key2 := (nameB, nameA) in
  match dist !! key with
  | Some v => to_float v
  | None =>
      match dist !! key2 with
      | Some v => to_float v
      | None => Ok (PyInt 0)
      end
  end.

Definition matrix_phase (dist : gmap (string * string) string)
    (names : list string) : result (list (list (number F))) :=
  collect (λ nameA, collect (λ nameB, cell dist nameA nameB) names) names.

(** Both cells: the arguments of [DistanceMatrix(matrix, names)]. *)
Definition assemble (d : directory)
    : result (list (list (number F)) * list string) :=
  '(dist, names) ← parse_phase d;
  matrix ← matrix_phase dist names;
  Ok (matrix, names).
End Matrix.

(** ** The builtin [float] on text

    [py_float] reads a numeral the way [float(str)] does: blanks around
    it are dropped (tab to carriage return, space, and the two Latin-1
    blanks U+0085 and U+00A0), an underscore may stand between two
    digits, then come an optional sign and either [inf], [infinity] or
    [nan] in any case, or decimal digits with an optional point and an
    optional exponent.  The value is the binary64 number nearest to the
    decimal one, ties to even, an infinity when it is too large; anything
    else is [ValueError], here [None].  A float is a [spec_float] of
    precision 53 and maximal exponent 1024. *)

Definition is_space (c : ascii) : bool :=
  let n := N_of_ascii c in
  ((9 <=? n) && (n <=? 13) || (n =? 32) || (n =? 133) || (n =? 160))%N.

Definition is_digit (c : ascii) : bool :=
  let n := N_of_ascii c in ((48 <=? n) && (n <=? 57))%N.

Definition digit_value (c : ascii) : Z := Z.of_N (N_of_ascii c) - 48.

Definition lower (c : ascii) : ascii :=
  let n := N_of_ascii c in
  if ((65 <=? n) && (n <=? 90))%N then ascii_of_N (n + 32) else c.

Fixpoint lstrip (l : list ascii) : list ascii :=
  match l with
  | c :: l' => if is_space c then lstrip l' else l
  | [] => []
  end.

Definition strip (l : list ascii) : list ascii :=
  reverse (lstrip (reverse (lstrip l))).

(** An underscore is dropped when a digit stands on each side of it and
    refused elsewhere; [prev] is the character just read. *)
Fixpoint drop_underscores (prev : option ascii) (l : list ascii)
    : option (list ascii) :=
  match l with
  | [] => if bool_decide (prev = Some "_"%char) then None else Some []
  | c :: l' =>
      if bool_decide (c = "_"%char) then
        if from_option is_digit false prev
        then drop_underscores (Some c) l' else None
      else if bool_decide (prev = Some "_"%char) && negb (is_digit c) then None
      else (c ::.) <$> drop_underscores (Some c) l'
  end.

(** The longest prefix of digits, as a number and a count, and the rest. *)
Fixpoint digits (acc : Z) (n : nat) (l : list ascii) : Z * nat * list ascii :=
  match l with
  | c :: l' =>
      if is_digit c then digits (10 * acc + digit_value c) (S n) l'
      else (acc, n, l)
  | [] => (acc, n, [])
  end.

Definition sign (l : list ascii) : bool * list ascii :=
  match l with
  | "-"%char :: l' => (true, l')
  | "+"%char :: l' => (false, l')
  | _ => (false, l)
  end.

(** [m * 10^k] rounded to binary64; [m] is not negative. *)
Definition binary64 (s : bool) (m k : Z) : spec_float :=
  match m with
  | Zpos p =>
      if (0 <=? k)%Z then binary_round 53 1024 s (p * Z.to_pos (10 ^ k)) 0
      else SFdiv 53 1024 (S754_finite s p 0)
                         (S754_finite false (Z.to_pos (10 ^ (- k))) 0)
  | _ => S754_zero s
  end.

(** The exponent part: empty, or [e] or [E], a sign and digits. *)
Definition exponent (l : list ascii) : option Z :=
  match l with
  | [] => Some 0%Z
  | c :: l' =>
      if decide (lower c = "e"%char) then
        let '(s, l'') := sign l' in
        match digits 0 0 l'' with
        | (e, S _, []) => Some (if s then (- e)%Z else e)
        | _ => None
        end
      else None
  end.

Definition decimal (s : bool) (l : list ascii) : option spec_float :=
  let '(i, ni, l1) := digits 0 0 l in
  let '(m, nf, l2) :=
    match l1 with
    | "."%char :: l1' => digits i 0 l1'
    | _ => (i, 0, l1)
    end in
  if decide (ni + nf = 0) then None
  else e ← exponent l2; Some (binary64 s m (e - Z.of_nat nf)).

Definition py_float (text : string) : option spec_float :=
  l ← drop_underscores None (strip (list_ascii_of_string text));
  let '(s, l') := sign l in
  let word := string_of_list_ascii (lower <$> l') in
  if decide (word = "inf" ∨ word = "infinity") then Some (S754_infinity s)
  else if decide (word = "nan") then Some S754_nan
  else decimal s l'.

(** ** Vocabulary of the statements *)

(** The three fields of a line the parse phase reads, when it has them. *)
Definition fields (line : string) : option (string * string * string) :=
  match split tab line with
  | a :: b :: v :: _ => Some (a, b, v)
  | _ => None
  end.

(** The lines of the listed files in the order the parse phase meets
    them: files by sorted name, lines from top to bottom. *)
Definition input_lines (d : directory) : list string :=
  file ← sorted (listdir d); from_option readlines [] (content d !! file).

(** Every listed file can be opened. *)
Definition readable (d : directory) : Prop :=
  ∀ file, file ∈ listdir d → is_Some (content d !! file).

(** Some line records the ordered pair [(a, b)]. *)
Definition records (lines : list string) (a b : string) : Prop :=
  ∃ line v, line ∈ lines ∧ fields line = Some (a, b, v).

(** The last line that records the ordered pair [(a, b)] gives it the
    distance text [v]. *)
Definition last_record (lines : list string) (a b v : string) : Prop :=
  ∃ pre line post,
    lines = pre ++ line :: post ∧ fields line = Some (a, b, v) ∧
    ¬ records post a b.

(** Two lines with the same first three fields. *)
Definition same_first_three (line1 line2 : string) : Prop :=
  take 3 (split tab line1) = take 3 (split tab line2).

(** [matrix[i][j]], when both indices are in range. *)
Definition entry {F} (matrix : list (list (number F))) (i j : nat)
    : option (number F) :=
  row ← matrix !! i; row !! j.

(** What one well-formed line does to [dist] and [names]. *)
Definition add_name (names : list string) (a : string) : list string :=
  if decide (a ∈ names) then names else names ++ [a].

Definition record_line (st : gmap (string * string) string * list string)
    (r : string * string * string)
    : gmap (string * string) string * list string :=
  let '(a, b, v) := r in
  (<[(a, b) := v]> st.1, add_name (add_name st.2 a) b).

(** ** Inputs of the examples *)

(** One line of [mash dist] output: five fields, tabs between them, a
    line feed at the end. *)
Definition mash_line (ref query distance pvalue hashes : string) : string :=
  ref +:+ String tab query +:+ String tab distance +:+ String tab pvalue
      +:+ String tab hashes +:+ String newline EmptyString.

(** The scenario of the specification: two files of one line each. *)
Definition two_files (file1 file2 : string) : directory :=
  {| listdir := [file1; file2];
     content := {[ file1 := mash_line "G1" "G2" "0.001" "0" "900/1000";
                   file2 := mash_line "G2" "G3" "0.002" "0" "800/1000" ]} |}.

(** The scenario of the specification with other p-values and hash
    counts, and the files listed in the other order. *)
Definition two_files_other_tail (file1 file2 : string) : directory :=
  {| listdir := [file1; file2];
     content := {[ file1 := mash_line "G1" "G2" "0.001" "1e-5" "1/1000";
                   file2 := mash_line "G2" "G3" "0.002" "0.5" "2/1000" ]} |}.

Definition two_files_relisted (file1 file2 : string) : directory :=
  {| listdir := [file2; file1];
     content := content (two_files file1 file2) |}.

(** A pair measured in both orientations, with two distances. *)
Definition both_orientations : directory :=
  {| listdir := ["pairs.tsv"];
     content := {[ "pairs.tsv" :=
       mash_line "A" "B" "0.1" "0" "900/1000" +:+
       mash_line "B" "A" "0.2" "0" "800/1000" ]} |}.

(** A genome measured against itself. *)
Definition self_pair : directory :=
  {| listdir := ["self.tsv"];
     content := {[ "self.tsv" := mash_line "A" "A" "0.5" "0" "500/1000" ]} |}.

(** A line whose distance is no numeral, followed by a line for the same
    ordered pair. *)
Definition overwritten : directory :=
  {| listdir := ["pairs.tsv"];
     content := {[ "pairs.tsv" :=
       mash_line "A" "B" "abc" "0" "900/1000" +:+
       mash_line "A" "B" "0.5" "0" "900/1000" ]} |}.

(** A line cut after its second field. *)
Definition truncated : directory :=
  {| listdir := ["cut.tsv"];
     content := {[ "cut.tsv" :=
       "A" +:+ String tab "B" +:+ String newline EmptyString ]} |}.

(** Two files without a line. *)
Definition empty_files : directory :=
  {| listdir := ["a.tsv"; "b.tsv"];
     content := {[ "a.tsv" := EmptyString; "b.tsv" := EmptyString ]} |}.

(** The binary64 numbers the examples meet: [0.001] is
    [0x1.0624dd2f1a9fcp-10], [0.002] twice that, [0.1] is
    [0x1.999999999999ap-4], [0.2] twice that, [0.5] is [2^-1]. *)
Definition f0_001 : spec_float := S754_finite false 4611686018427388 (-62).
Definition f0_002 : spec_float := S754_finite false 4611686018427388 (-61).
Definition f0_1 : spec_float := S754_finite false 7205759403792794 (-56).
Definition f0_2 : spec_float := S754_finite false 7205759403792794 (-55).
Definition f0_5 : spec_float := S754_finite false 4503599627370496 (-53).

(** ** Further vocabulary and inputs *)

(** The characters of a text, in order. *)
Definition chars (s : string) : list ascii := list_ascii_of_string s.

(** A line that ends with its line feed, and a last line that has none. *)
Definition closed_line (line : string) : Prop :=
  ∃ body, line = body +:+ String newline EmptyString ∧ newline ∉ chars body.

Definition open_line (line : string) : Prop :=
  line ≠ EmptyString ∧ newline ∉ chars line.




(** The two lines of the scenario in one file. *)
Definition one_file : directory :=
  {| listdir := ["all.tsv"];
     content := {[ "all.tsv" :=
       mash_line "G1" "G2" "0.001" "0" "900/1000" +:+
       mash_line "G2" "G3" "0.002" "0" "800/1000" ]} |}.

(** [overwritten] without the line that is overwritten. *)
Definition last_line_only : directory :=
  {| listdir := ["pairs.tsv"];
     content := {[ "pairs.tsv" := mash_line "A" "B" "0.5" "0" "900/1000" ]} |}.

(** * Proofs *)

(** ** Loops *)

Lemma for_each_app {S A} (body : S → A → result S) s l1 l2 :
  for_each body s (l1 ++ l2) = s' ← for_each body s l1; for_each body s' l2.
Proof.
  revert s; induction l1 as [|x l1 IH]; intros s; simpl; [done|].
  destruct (body s x); simpl; auto.
Qed.

Lemma for_each_ext {S A} (body1 body2 : S → A → result S) s l :
  (∀ s x, x ∈ l → body1 s x = body2 s x) →
  for_each body1 s l = for_each body2 s l.
Proof.
  revert s; induction l as [|x l IH]; intros s Hext; simpl; [done|].
  rewrite Hext by left. destruct (body2 s x); simpl; [|done].
  apply IH. intros; apply Hext; by right.
Qed.

Lemma collect_Ok {A B} (body : A → result B) l ys :
  collect body l = Ok ys ↔ Forall2 (λ x y, body x = Ok y) l ys.
Proof.
  revert ys; induction l as [|x l IH]; intros ys; simpl.
  - split; [intros [= <-]; constructor | by inversion 1].
  - destruct (body x) as [y|e] eqn:Hx; simpl.
    + destruct (collect body l) as [zs|e] eqn:Hl; simpl.
      * split.
        -- intros [= <-]. constructor; [done|]. by apply IH.
        -- inversion 1 as [|? y' ? zs' Hy Hzs]; subst.
           apply IH in Hzs. congruence.
      * split; [done|]. inversion 1 as [|? y' ? zs' Hy Hzs]; subst.
        apply IH in Hzs. congruence.
    + split; [done|]. inversion 1; congruence.
Qed.

Lemma collect_Raise {A B} (body : A → result B) l x :
  x ∈ l → is_Raise (body x) → is_Raise (collect body l).
Proof.
  intros Hin [e He]. induction Hin as [x l|x y l Hin IH]; simpl.
  - rewrite He. by exists e.
  - destruct (body y); simpl; [|by eexists].
    destruct (IH He) as [e' ->]. by exists e'.
Qed.

Lemma collect_Raise_inv {A B} (body : A → result B) l e :
  collect body l = Raise e → ∃ x, x ∈ l ∧ body x = Raise e.
Proof.
  induction l as [|x l IH]; simpl; [done|].
  destruct (body x) as [y|e'] eqn:Hx; simpl.
  - destruct (collect body l) as [ys|e'] eqn:Hl; simpl; [done|].
    intros [= ->]. destruct IH as (x' & Hin & Hx'); [done|].
    exists x'. split; [by right|done].
  - intros [= ->]. exists x. split; [left|done].
Qed.


(** ** sorted *)

Lemma sorted_Permutation l : sorted l ≡ₚ l.
Proof. apply merge_sort_Permutation. Qed.

Lemma sorted_Sorted l : Sorted String.le (sorted l).
Proof. apply (Sorted_merge_sort String.le). Qed.

Lemma sorted_unique l1 l2 : l1 ≡ₚ l2 → sorted l1 = sorted l2.
Proof.
  intros Hp. apply (Sorted_unique String.le); [apply sorted_Sorted..|].
  by rewrite !sorted_Permutation.
Qed.

Lemma elem_of_sorted x l : x ∈ sorted l ↔ x ∈ l.
Proof. by rewrite sorted_Permutation. Qed.

Lemma NoDup_sorted l : NoDup (sorted l) ↔ NoDup l.
Proof. by rewrite sorted_Permutation. Qed.

(** ** Lines and fields *)

Lemma split_not_nil sep s : split sep s ≠ [].
Proof. destruct s as [|c s]; simpl; [done|]. by repeat case_match. Qed.

Lemma fields_Some line a b v :
  fields line = Some (a, b, v) ↔
  ∃ rest, split tab line = a :: b :: v :: rest.
Proof.
  unfold fields. split.
  - destruct (split tab line) as [|? [|? [|? ?]]]; intros [=]; subst; eauto.
  - by intros [rest ->].
Qed.

Lemma fields_None line :
  fields line = None ↔ (length (split tab line) < 3)%nat.
Proof.
  unfold fields.
  destruct (split tab line) as [|? [|? [|? ?]]]; simpl; split;
    (done || lia).
Qed.

Lemma parse_line_fields st line :
  parse_line st line =
    match fields line with
    | Some r => Ok (record_line st r)
    | None => Raise IndexError
    end.
Proof.
  destruct st as [dist names]. unfold parse_line, fields, item.
  destruct (split tab line) as [|a [|b [|v rest]]]; simpl; try done.
Qed.

Lemma parse_lines_Ok st lines st' :
  for_each parse_line st lines = Ok st' ↔
  ∃ rs, Forall2 (λ line r, fields line = Some r) lines rs ∧
        st' = foldl record_line st rs.
Proof.
  revert st; induction lines as [|line lines IH]; intros st; simpl.
  - split.
    + intros [= <-]. exists []. by split; [constructor|].
    + intros (rs & Hrs & ->). by inversion Hrs.
  - rewrite parse_line_fields. destruct (fields line) as [r|] eqn:Hr; simpl.
    + rewrite IH. split.
      * intros (rs & Hrs & ->). exists (r :: rs). by split; [constructor|].
      * intros (rs & Hrs & ->).
        inversion Hrs as [|? r' ? rs' Hr' Hrs']; simplify_eq/=. by exists rs'.
    + split; [done|]. intros (rs & Hrs & _). inversion Hrs; congruence.
Qed.

Lemma parse_lines_Raise st lines line :
  line ∈ lines → fields line = None →
  is_Raise (for_each parse_line st lines).
Proof.
  intros Hin Hnone. revert st.
  induction Hin as [line lines|line x lines Hin IH]; intros st; simpl;
    rewrite parse_line_fields.
  - rewrite Hnone. by eexists.
  - destruct (fields x); simpl; [by apply IH | by eexists].
Qed.

Lemma fields_total lines :
  (∀ line, line ∈ lines → is_Some (fields line)) →
  ∃ rs, Forall2 (λ line r, fields line = Some r) lines rs.
Proof.
  induction lines as [|line lines IH]; intros Hall; [by exists []|].
  destruct (Hall line) as [r Hr]; [left|].
  destruct IH as [rs Hrs]; [intros; apply Hall; by right|].
  exists (r :: rs). by constructor.
Qed.

(** ** Files *)

Lemma parse_file_Some d st file text :
  content d !! file = Some text →
  parse_file d st file = for_each parse_line st (readlines text).
Proof. intros Htext. unfold parse_file, open. by rewrite Htext. Qed.

Lemma parse_file_None d st file :
  content d !! file = None → parse_file d st file = Raise OSError.
Proof. intros Hnone. unfold parse_file, open. by rewrite Hnone. Qed.

Lemma parse_files_lines d st files :
  (∀ file, file ∈ files → is_Some (content d !! file)) →
  for_each (parse_file d) st files =
  for_each parse_line st
    (file ← files; from_option readlines [] (content d !! file)).
Proof.
  revert st; induction files as [|file files IH]; intros st Hall; [done|].
  simpl. rewrite for_each_app.
  destruct (Hall file) as [text Htext]; [left|].
  rewrite (parse_file_Some _ _ _ _ Htext), Htext. simpl.
  destruct (for_each parse_line st (readlines text)); simpl; [|done].
  apply IH. intros; apply Hall; by right.
Qed.

Lemma parse_files_unreadable d st files file :
  file ∈ files → content d !! file = None →
  is_Raise (for_each (parse_file d) st files).
Proof.
  intros Hin Hnone. revert st.
  induction Hin as [file files|file x files Hin IH]; intros st; simpl.
  - rewrite parse_file_None by done. by eexists.
  - destruct (parse_file d st x); simpl; [by apply IH | by eexists].
Qed.

Lemma parse_phase_Ok d dist names :
  parse_phase d = Ok (dist, names) ↔
  readable d ∧
  ∃ rs, Forall2 (λ line r, fields line = Some r) (input_lines d) rs ∧
        dist = (foldl record_line (∅, []) rs).1 ∧
        names = sorted (foldl record_line (∅, []) rs).2.
Proof.
  unfold parse_phase. split.
  - intros Hrun. assert (readable d) as Hread.
    { intros file Hin. destruct (content d !! file) eqn:Hc; [by eexists|].
      apply elem_of_sorted in Hin.
      destruct (parse_files_unreadable d (∅, []) _ _ Hin Hc) as [e He].
      rewrite He in Hrun. done. }
    split; [done|]. rewrite parse_files_lines in Hrun.
    2:{ intros file Hin. apply Hread. by apply elem_of_sorted. }
    fold (input_lines d) in Hrun.
    destruct (for_each parse_line (∅, []) (input_lines d)) as [st|] eqn:Hst;
      simplify_eq/=.
    apply parse_lines_Ok in Hst as (rs & Hrs & ->). by exists rs.
  - intros (Hread & rs & Hrs & -> & ->). rewrite parse_files_lines.
    2:{ intros file Hin. apply Hread. by apply elem_of_sorted. }
    fold (input_lines d).
    assert (for_each parse_line (∅, []) (input_lines d) =
            Ok (foldl record_line (∅, []) rs)) as ->; [|done].
    apply parse_lines_Ok. by exists rs.
Qed.

(** ** What the parse phase leaves in [dist] and [names] *)

Lemma elem_of_add_name x names a : x ∈ add_name names a ↔ x ∈ names ∨ x = a.
Proof.
  unfold add_name. case_decide as Hin.
  - split; [by left|]. by intros [?| ->].
  - rewrite elem_of_app, list_elem_of_singleton. done.
Qed.

Lemma NoDup_add_name names a : NoDup names → NoDup (add_name names a).
Proof.
  intros Hnd. unfold add_name. case_decide; [done|].
  apply NoDup_app. split_and!; [done| |apply NoDup_singleton].
  intros x Hx ->%list_elem_of_singleton. done.
Qed.

Lemma foldl_record_snoc st rs r :
  foldl record_line st (rs ++ [r]) = record_line (foldl record_line st rs) r.
Proof. by rewrite foldl_app. Qed.

Lemma foldl_record_cons st r rs :
  foldl record_line st (r :: rs) = foldl record_line (record_line st r) rs.
Proof. done. Qed.

Lemma record_line_dist st a b v :
  (record_line st (a, b, v)).1 = <[(a, b) := v]> st.1.
Proof. done. Qed.

Lemma record_line_names st a b v :
  (record_line st (a, b, v)).2 = add_name (add_name st.2 a) b.
Proof. done. Qed.

Lemma fold_dist_absent st rs a b :
  (∀ v, (a, b, v) ∉ rs) →
  (foldl record_line st rs).1 !! (a, b) = st.1 !! (a, b).
Proof.
  induction rs as [|[[a' b'] v'] rs IH] using rev_ind; intros Habs; [done|].
  rewrite foldl_record_snoc, record_line_dist.
  rewrite lookup_insert_ne.
  - apply IH. intros v Hin. apply (Habs v). apply elem_of_app. by left.
  - intros [= -> ->]. apply (Habs v'). apply elem_of_app. right. by left.
Qed.

Lemma fold_dist_last st pre post a b v :
  (∀ v', (a, b, v') ∉ post) →
  (foldl record_line st (pre ++ (a, b, v) :: post)).1 !! (a, b) = Some v.
Proof.
  intros Habs. rewrite foldl_app, foldl_record_cons.
  rewrite fold_dist_absent by done.
  rewrite record_line_dist. apply lookup_insert_eq.
Qed.

Lemma fold_dist_inv st rs a b v :
  (foldl record_line st rs).1 !! (a, b) = Some v →
  (st.1 !! (a, b) = Some v ∧ ∀ v', (a, b, v') ∉ rs) ∨
  ∃ pre post, rs = pre ++ (a, b, v) :: post ∧ ∀ v', (a, b, v') ∉ post.
Proof.
  induction rs as [|[[a' b'] v'] rs IH] using rev_ind; intros Hlook.
  - left. split; [done|]. intros v' Hin. by apply elem_of_nil in Hin.
  - rewrite foldl_record_snoc, record_line_dist in Hlook.
    destruct (decide ((a', b') = (a, b))) as [[= -> ->]|Hne].
    + rewrite lookup_insert_eq in Hlook. injection Hlook as ->.
      right. exists rs, []. split; [done|]. intros v' Hin.
      by apply elem_of_nil in Hin.
    + rewrite lookup_insert_ne in Hlook by done.
      destruct (IH Hlook) as [[Hst Habs]|(pre & post & -> & Habs)].
      * left. split; [done|]. intros v'' [Hin|Hin]%elem_of_app.
        -- by apply (Habs v'').
        -- apply list_elem_of_singleton in Hin. congruence.
      * right. exists pre, (post ++ [(a', b', v')]). split.
        -- by rewrite <- app_assoc.
        -- intros v'' [Hin|Hin]%elem_of_app.
           ++ by apply (Habs v'').
           ++ apply list_elem_of_singleton in Hin. congruence.
Qed.

Lemma fold_names_elem st rs x :
  x ∈ (foldl record_line st rs).2 ↔
  x ∈ st.2 ∨ ∃ a b v, (a, b, v) ∈ rs ∧ (x = a ∨ x = b).
Proof.
  induction rs as [|[[a' b'] v'] rs IH] using rev_ind.
  - split; [by left|]. intros [?|(a & b & v & Hin & _)]; [done|].
    by apply elem_of_nil in Hin.
  - rewrite foldl_record_snoc, record_line_names.
    rewrite !elem_of_add_name, IH. split.
    + intros [[[?|(a & b & v & Hin & Hx)]| ->]| ->].
      * by left.
      * right. exists a, b, v. split; [|done]. apply elem_of_app. by left.
      * right. exists a', b', v'. split; [|by left].
        apply elem_of_app. right. by left.
      * right. exists a', b', v'. split; [|by right].
        apply elem_of_app. right. by left.
    + intros [?|(a & b & v & [Hin|Hin]%elem_of_app & Hx)].
      * by do 3 left.
      * do 2 left. right. by exists a, b, v.
      * apply list_elem_of_singleton in Hin. injection Hin as -> -> ->.
        destruct Hx as [-> | ->]; [left; by right | by right].
Qed.

Lemma fold_names_NoDup st rs :
  NoDup st.2 → NoDup (foldl record_line st rs).2.
Proof.
  intros Hnd. induction rs as [|[[a' b'] v'] rs IH] using rev_ind; [done|].
  rewrite foldl_record_snoc, record_line_names.
  by do 2 apply NoDup_add_name.
Qed.

(** From records back to lines. *)

Lemma records_of_lines lines rs a b :
  Forall2 (λ line r, fields line = Some r) lines rs →
  records lines a b ↔ ∃ v, (a, b, v) ∈ rs.
Proof.
  intros Hrs. unfold records. split.
  - intros (line & v & Hin & Hf).
    apply list_elem_of_lookup in Hin as [i Hi].
    destruct (Forall2_lookup_l _ _ _ _ _ Hrs Hi) as (r & Hr & Hfr).
    exists v. apply list_elem_of_lookup. exists i. congruence.
  - intros (v & Hin). apply list_elem_of_lookup in Hin as [i Hi].
    destruct (Forall2_lookup_r _ _ _ _ _ Hrs Hi) as (line & Hl & Hfl).
    exists line, v. split; [|done]. apply list_elem_of_lookup. by exists i.
Qed.

Lemma last_record_of_lines lines rs a b v :
  Forall2 (λ line r, fields line = Some r) lines rs →
  last_record lines a b v ↔
  ∃ pre post, rs = pre ++ (a, b, v) :: post ∧ ∀ v', (a, b, v') ∉ post.
Proof.
  intros Hrs. unfold last_record. split.
  - intros (pre & line & post & -> & Hf & Hlast).
    apply Forall2_app_inv_l in Hrs as (rpre & rs' & Hpre & Hrs' & ->).
    apply Forall2_cons_inv_l in Hrs' as (r & rpost & Hr & Hpost & ->).
    exists rpre, rpost. split; [congruence|].
    intros v' Hin. apply Hlast.
    apply (records_of_lines _ _ _ _ Hpost). by exists v'.
  - intros (rpre & rpost & -> & Habs).
    apply Forall2_app_inv_r in Hrs as (pre & ls' & Hpre & Hls' & ->).
    apply Forall2_cons_inv_r in Hls' as (line & post & Hl & Hpost & ->).
    exists pre, line, post. split_and!; [done..|].
    intros (v' & Hin)%(records_of_lines _ _ _ _ Hpost). by apply (Habs v').
Qed.

Lemma parse_phase_names d dist names :
  parse_phase d = Ok (dist, names) →
  NoDup names ∧
  ∀ x, x ∈ names ↔
       ∃ line a b v, line ∈ input_lines d ∧ fields line = Some (a, b, v) ∧
                     (x = a ∨ x = b).
Proof.
  intros (Hread & rs & Hrs & -> & ->)%parse_phase_Ok. split.
  - apply NoDup_sorted, fold_names_NoDup. constructor.
  - intros x. rewrite elem_of_sorted, fold_names_elem. simpl. split.
    + intros [Hin|(a & b & v & Hin & Hx)]; [by apply elem_of_nil in Hin|].
      apply list_elem_of_lookup in Hin as [i Hi].
      destruct (Forall2_lookup_r _ _ _ _ _ Hrs Hi) as (line & Hl & Hfl).
      exists line, a, b, v. split_and!; [|done..].
      apply list_elem_of_lookup. by exists i.
    + intros (line & a & b & v & Hin & Hf & Hx). right.
      apply list_elem_of_lookup in Hin as [i Hi].
      destruct (Forall2_lookup_l _ _ _ _ _ Hrs Hi) as (r & Hr & Hfr).
      exists a, b, v. split; [|done].
      apply list_elem_of_lookup. exists i. congruence.
Qed.

Lemma parse_phase_dist d dist names a b v :
  parse_phase d = Ok (dist, names) →
  dist !! (a, b) = Some v ↔ last_record (input_lines d) a b v.
Proof.
  intros (Hread & rs & Hrs & -> & ->)%parse_phase_Ok.
  rewrite (last_record_of_lines _ _ _ _ _ Hrs). split.
  - intros [[Hemp _]|Hlast]%fold_dist_inv; [|done].
    simpl in Hemp. by rewrite lookup_empty in Hemp.
  - intros (pre & post & -> & Habs). by apply fold_dist_last.
Qed.

Lemma parse_phase_dist_None d dist names a b :
  parse_phase d = Ok (dist, names) →
  dist !! (a, b) = None ↔ ¬ records (input_lines d) a b.
Proof.
  intros Hrun. pose proof Hrun as (Hread & rs & Hrs & -> & ->)%parse_phase_Ok.
  rewrite (records_of_lines _ _ _ _ Hrs). split.
  - intros Hnone (v & Hin).
    apply list_elem_of_split in Hin as (pre & post & ->).
    assert (∃ pre' v' post', pre ++ (a, b, v) :: post =
              pre' ++ (a, b, v') :: post' ∧ ∀ v'', (a, b, v'') ∉ post')
      as (pre' & v' & post' & Heq & Habs).
    { clear. revert pre v.
      induction post as [|[[a' b'] w] post IH] using rev_ind; intros pre v.
      - exists pre, v, []. split; [done|]. intros ? Hin.
        by apply elem_of_nil in Hin.
      - destruct (decide ((a', b') = (a, b))) as [[= -> ->]|Hne].
        + exists (pre ++ (a, b, v) :: post), w, []. split.
          * by rewrite <- app_assoc.
          * intros ? Hin. by apply elem_of_nil in Hin.
        + destruct (IH pre v) as (pre' & v' & post' & Heq & Habs).
          exists pre', v', (post' ++ [(a', b', w)]). split.
          * rewrite app_comm_cons, app_assoc, Heq.
            by rewrite <- app_assoc.
          * intros v'' [Hin|Hin]%elem_of_app; [by apply (Habs v'')|].
            apply list_elem_of_singleton in Hin. congruence. }
    rewrite Heq, fold_dist_last in Hnone by done. done.
  - intros Habs. rewrite fold_dist_absent; [done|].
    intros v Hin. apply Habs. by exists v.
Qed.

Lemma parse_phase_keys d dist names a b :
  parse_phase d = Ok (dist, names) →
  is_Some (dist !! (a, b)) → a ∈ names ∧ b ∈ names.
Proof.
  intros Hrun [v Hv]. apply (parse_phase_dist _ _ _ _ _ _ Hrun) in Hv.
  destruct Hv as (pre & line & post & Hlines & Hf & _).
  destruct (parse_phase_names _ _ _ Hrun) as [_ Hnames].
  split; apply Hnames; exists line, a, b, v;
    (split_and!; [rewrite Hlines; apply elem_of_app; right; left|done|auto]).
Qed.

(** ** The matrix phase *)

Section MatrixProofs.
Context {F : Type} (float : string → option F).

Lemma to_float_Ok v n :
  to_float float v = Ok n ↔ ∃ x, float v = Some x ∧ n = PyFloat x.
Proof.
  unfold to_float. destruct (float v) as [x|]; split.
  - intros [= <-]. by exists x.
  - by intros (x' & [= <-] & ->).
  - done.
  - by intros (x' & [=] & _).
Qed.

Lemma cell_Raise dist a b e :
  cell float dist a b = Raise e → e = ValueError.
Proof.
  unfold cell, to_float. intros Hc. repeat case_match; congruence.
Qed.

Lemma matrix_phase_entry dist names m i j a b :
  matrix_phase float dist names = Ok m →
  names !! i = Some a → names !! j = Some b →
  ∃ n, cell float dist a b = Ok n ∧ entry m i j = Some n.
Proof.
  unfold matrix_phase, entry. intros Hm%collect_Ok Hi Hj.
  destruct (Forall2_lookup_l _ _ _ _ _ Hm Hi) as (row & Hrow & Hr).
  apply collect_Ok in Hr.
  destruct (Forall2_lookup_l _ _ _ _ _ Hr Hj) as (n & Hn & Hc).
  exists n. split; [done|]. rewrite Hrow. done.
Qed.

Lemma matrix_phase_shape dist names m :
  matrix_phase float dist names = Ok m →
  length m = length names ∧
  ∀ i row, m !! i = Some row → length row = length names.
Proof.
  unfold matrix_phase. intros Hm%collect_Ok. split.
  - symmetry. by eapply Forall2_length.
  - intros i row Hrow.
    destruct (Forall2_lookup_r _ _ _ _ _ Hm Hrow) as (a & Ha & Hr).
    apply collect_Ok in Hr. symmetry. by eapply Forall2_length.
Qed.


Lemma matrix_phase_Raise dist names e :
  matrix_phase float dist names = Raise e → e = ValueError.
Proof.
  unfold matrix_phase.
  intros (a & _ & (b & _ & Hc)%collect_Raise_inv)%collect_Raise_inv.
  by eapply cell_Raise.
Qed.

Lemma matrix_phase_fails dist names a b :
  a ∈ names → b ∈ names → is_Raise (cell float dist a b) →
  is_Raise (matrix_phase float dist names).
Proof.
  intros Ha Hb Hc. unfold matrix_phase.
  eapply collect_Raise; [exact Ha|]. by eapply collect_Raise.
Qed.

Lemma assemble_Ok d m names :
  assemble float d = Ok (m, names) ↔
  ∃ dist, parse_phase d = Ok (dist, names) ∧
          matrix_phase float dist names = Ok m.
Proof.
  unfold assemble. split.
  - destruct (parse_phase d) as [[dist names']|]; simpl; [|done].
    destruct (matrix_phase float dist names') eqn:Hm; simpl; [|done].
    intros [= -> ->]. by exists dist.
  - intros (dist & -> & Hm). simpl. by rewrite Hm.
Qed.

Lemma assemble_parse_Raise d e :
  parse_phase d = Raise e → assemble float d = Raise e.
Proof. unfold assemble. by intros ->. Qed.

Lemma assemble_matrix_Raise d dist names :
  parse_phase d = Ok (dist, names) →
  is_Raise (matrix_phase float dist names) →
  assemble float d = Raise ValueError.
Proof.
  unfold assemble. intros -> [e He]. simpl. rewrite He. simpl.
  by rewrite (matrix_phase_Raise _ _ _ He).
Qed.

(** What one cell holds after a run that completes, in terms of [dist]. *)
Lemma assemble_entry d m names dist i j a b :
  assemble float d = Ok (m, names) →
  parse_phase d = Ok (dist, names) →
  names !! i = Some a → names !! j = Some b →
  match dist !! (a, b) with
  | Some v => ∃ x, float v = Some x ∧ entry m i j = Some (PyFloat x)
  | None =>
      match dist !! (b, a) with
      | Some v => ∃ x, float v = Some x ∧ entry m i j = Some (PyFloat x)
      | None => entry m i j = Some (PyInt 0)
      end
  end.
Proof.
  intros (dist' & Hp & Hm)%assemble_Ok Hp' Hi Hj.
  assert (dist' = dist) as -> by congruence.
  destruct (matrix_phase_entry _ _ _ _ _ _ _ Hm Hi Hj) as (n & Hc & He).
  unfold cell in Hc.
  destruct (dist !! (a, b)) as [v|].
  { apply to_float_Ok in Hc as (x & Hx & ->). by exists x. }
  destruct (dist !! (b, a)) as [v|].
  { apply to_float_Ok in Hc as (x & Hx & ->). by exists x. }
  congruence.
Qed.


End MatrixProofs.

(** * The claims *)

(** C3.  After a run that completes, the cell in row [index(nameA)] and
    column [index(nameB)] of the matrix is the value [dist] holds under
    the key [(nameA, nameB)] when that key is present, otherwise the
    value under [(nameB, nameA)] when that one is present, otherwise the
    integer [0].  The value [dist] holds is the distance text; the cell
    is its reading by [float]. *)
Theorem matrix_entry_lookup {F} (float : string → option F) d m names :
  assemble float d = Ok (m, names) →
  ∃ dist, parse_phase d = Ok (dist, names) ∧
    ∀ i j nameA nameB,
      names !! i = Some nameA → names !! j = Some nameB →
      match dist !! (nameA, nameB) with
      | Some v => ∃ x, float v = Some x ∧ entry m i j = Some (PyFloat x)
      | None =>
          match dist !! (nameB, nameA) with
          | Some v => ∃ x, float v = Some x ∧ entry m i j = Some (PyFloat x)
          | None => entry m i j = Some (PyInt 0)
          end
      end.
Proof.
  intros Hrun. pose proof Hrun as (dist & Hp & Hm)%assemble_Ok.
  exists dist. split; [done|]. intros i j a b Hi Hj.
  by eapply assemble_entry.
Qed.

Lemma matrix_entry_lookup_witness :
  ∃ dist, parse_phase (two_files "a.tsv" "b.tsv") = Ok (dist, ["G1"; "G2"; "G3"]) ∧
    ∀ i j nameA nameB,
      ["G1"; "G2"; "G3"] !! i = Some nameA →
      ["G1"; "G2"; "G3"] !! j = Some nameB →
      match dist !! (nameA, nameB) with
      | Some v =>
          ∃ x, py_float v = Some x ∧
               entry [[PyInt 0; PyFloat f0_001; PyInt 0];
                      [PyFloat f0_001; PyInt 0; PyFloat f0_002];
                      [PyInt 0; PyFloat f0_002; PyInt 0]] i j
               = Some (PyFloat x)
      | None =>
          match dist !! (nameB, nameA) with
          | Some v =>
              ∃ x, py_float v = Some x ∧
                   entry [[PyInt 0; PyFloat f0_001; PyInt 0];
                          [PyFloat f0_001; PyInt 0; PyFloat f0_002];
                          [PyInt 0; PyFloat f0_002; PyInt 0]] i j
                   = Some (PyFloat x)
          | None =>
              entry [[PyInt 0; PyFloat f0_001; PyInt 0];
                     [PyFloat f0_001; PyInt 0; PyFloat f0_002];
                     [PyInt 0; PyFloat f0_002; PyInt 0]] i j
              = Some (PyInt 0)
          end
      end.
Proof.
  apply (matrix_entry_lookup py_float (two_files "a.tsv" "b.tsv")).
  vm_compute. reflexivity.
Defined.

(** C1, as the code has it.  After a run that completes, take an ordered
    pair [(a, b)] whose last record, in the order the lines are read,
    carries the distance text [v].  The cell at [(index(a), index(b))] is
    [float(v)].  The cell at [(index(b), index(a))] is [float(v)] as well
    when the reverse orientation [(b, a)], if some line records it, ends
    with a text that reads to the same float.  So the matrix is symmetric
    as soon as no pair is recorded in both orientations with two
    different readings. *)
Theorem matrix_recorded_distance {F} (float : string → option F) d m names :
  assemble float d = Ok (m, names) →
  (∀ a b v i j,
     last_record (input_lines d) a b v →
     names !! i = Some a → names !! j = Some b →
     ∃ x, float v = Some x ∧ entry m i j = Some (PyFloat x) ∧
          ((∀ v', last_record (input_lines d) b a v' → float v' = Some x) →
           entry m j i = Some (PyFloat x))) ∧
  ((∀ a b v v',
      last_record (input_lines d) a b v →
      last_record (input_lines d) b a v' → float v = float v') →
   ∀ i j, entry m i j = entry m j i).
Proof.
  intros Hrun. pose proof Hrun as (dist & Hp & Hm)%assemble_Ok. split.
  - intros a b v i j Hlast Hi Hj.
    apply (parse_phase_dist _ _ _ _ _ _ Hp) in Hlast.
    pose proof (assemble_entry float _ _ _ _ i j a b Hrun Hp Hi Hj) as Hij.
    pose proof (assemble_entry float _ _ _ _ j i b a Hrun Hp Hj Hi) as Hji.
    rewrite Hlast in Hij. destruct Hij as (x & Hx & Hij).
    exists x. split_and!; [done..|]. intros Hrev.
    destruct (dist !! (b, a)) as [v'|] eqn:Hba.
    + destruct Hji as (x' & Hx' & Hji).
      apply (parse_phase_dist _ _ _ _ _ _ Hp), Hrev in Hba. congruence.
    + rewrite Hlast in Hji. destruct Hji as (x' & Hx' & Hji). congruence.
  - intros Hagree i j.
    destruct (matrix_phase_shape float _ _ _ Hm) as [Hlen Hrows].
    destruct (names !! i) as [a|] eqn:Hi; destruct (names !! j) as [b|] eqn:Hj.
    + pose proof (assemble_entry float _ _ _ _ i j a b Hrun Hp Hi Hj) as Hij.
      pose proof (assemble_entry float _ _ _ _ j i b a Hrun Hp Hj Hi) as Hji.
      destruct (dist !! (a, b)) as [v|] eqn:Hab;
        destruct (dist !! (b, a)) as [v'|] eqn:Hba.
      * destruct Hij as (x & Hx & ->), Hji as (x' & Hx' & ->).
        apply (parse_phase_dist _ _ _ _ _ _ Hp) in Hab, Hba.
        specialize (Hagree _ _ _ _ Hab Hba). congruence.
      * destruct Hij as (x & Hx & ->), Hji as (x' & Hx' & ->). congruence.
      * destruct Hij as (x & Hx & ->), Hji as (x' & Hx' & ->). congruence.
      * congruence.
    + apply lookup_ge_None in Hj. unfold entry.
      rewrite (proj2 (lookup_ge_None m j)) by lia. simpl.
      destruct (m !! i) as [row|] eqn:Hrow; simpl; [|done].
      apply lookup_ge_None. rewrite (Hrows _ _ Hrow). done.
    + apply lookup_ge_None in Hi. unfold entry.
      rewrite (proj2 (lookup_ge_None m i)) by lia. simpl.
      destruct (m !! j) as [row|] eqn:Hrow; simpl; [|done].
      symmetry. apply lookup_ge_None. rewrite (Hrows _ _ Hrow). done.
    + apply lookup_ge_None in Hi, Hj. unfold entry.
      rewrite (proj2 (lookup_ge_None m i)), (proj2 (lookup_ge_None m j))
        by lia. done.
Qed.

Lemma matrix_recorded_distance_witness :
  last_record (input_lines (two_files "a.tsv" "b.tsv")) "G1" "G2" "0.001" ∧
  ∃ x, py_float "0.001" = Some x ∧
       entry [[PyInt 0; PyFloat f0_001; PyInt 0];
              [PyFloat f0_001; PyInt 0; PyFloat f0_002];
              [PyInt 0; PyFloat f0_002; PyInt 0]] 0 1 = Some (PyFloat x) ∧
       entry [[PyInt 0; PyFloat f0_001; PyInt 0];
              [PyFloat f0_001; PyInt 0; PyFloat f0_002];
              [PyInt 0; PyFloat f0_002; PyInt 0]] 1 0 = Some (PyFloat x).
Proof.
  assert (parse_phase (two_files "a.tsv" "b.tsv") =
          Ok ({[ ("G1", "G2") := "0.001"; ("G2", "G3") := "0.002" ]},
              ["G1"; "G2"; "G3"])) as Hp by (vm_compute; reflexivity).
  assert (last_record (input_lines (two_files "a.tsv" "b.tsv"))
            "G1" "G2" "0.001") as Hlast.
  { apply (parse_phase_dist _ _ _ _ _ _ Hp). vm_compute. reflexivity. }
  split; [exact Hlast|].
  destruct (matrix_recorded_distance py_float (two_files "a.tsv" "b.tsv")
              [[PyInt 0; PyFloat f0_001; PyInt 0];
               [PyFloat f0_001; PyInt 0; PyFloat f0_002];
               [PyInt 0; PyFloat f0_002; PyInt 0]] ["G1"; "G2"; "G3"])
    as [Hpair _]; [vm_compute; reflexivity|].
  destruct (Hpair "G1" "G2" "0.001" 0%nat 1%nat Hlast eq_refl eq_refl)
    as (x & Hx & Hij & Hji).
  exists x. split_and!; [exact Hx|exact Hij|]. apply Hji.
  intros v' Hrev. apply (parse_phase_dist _ _ _ _ _ _ Hp) in Hrev.
  vm_compute in Hrev. discriminate Hrev.
Defined.

(** C1 as stated fails on [both_orientations]: the file records
    [(A, B)] with [0.1] and [(B, A)] with [0.2], the run completes, the
    cell [(0, 1)] is [0.1] and the cell [(1, 0)] is [0.2]. *)
Lemma matrix_recorded_distance_counterexample :
  assemble py_float both_orientations =
    Ok ([[PyInt 0; PyFloat f0_1]; [PyFloat f0_2; PyInt 0]], ["A"; "B"]) ∧
  ¬ (∀ m names a b v i j,
       assemble py_float both_orientations = Ok (m, names) →
       (∃ line, line ∈ input_lines both_orientations ∧
                fields line = Some (a, b, v)) →
       names !! i = Some a → names !! j = Some b →
       ∃ x, py_float v = Some x ∧
            entry m i j = Some (PyFloat x) ∧ entry m j i = Some (PyFloat x)).
Proof.
  assert (assemble py_float both_orientations =
    Ok ([[PyInt 0; PyFloat f0_1]; [PyFloat f0_2; PyInt 0]], ["A"; "B"]))
    as Hrun by (vm_compute; reflexivity).
  split; [exact Hrun|]. intros Hclaim.
  destruct (Hclaim _ _ "A" "B" "0.1" 0%nat 1%nat Hrun) as (x & _ & H01 & H10);
    [|done..|].
  - exists (mash_line "A" "B" "0.1" "0" "900/1000"). split; [|done].
    vm_compute. left.
  - vm_compute in H01, H10. congruence.
Qed.

(** C2, as the code has it.  After a run that completes, the diagonal
    cell of a name [a] is the integer [0] of the default branch when no
    line records [a] against itself; when some line does, the diagonal
    cell is the float read from the last such line. *)
Theorem matrix_diagonal {F} (float : string → option F) d m names i a :
  assemble float d = Ok (m, names) →
  names !! i = Some a →
  (¬ records (input_lines d) a a → entry m i i = Some (PyInt 0)) ∧
  (∀ v, last_record (input_lines d) a a v →
        ∃ x, float v = Some x ∧ entry m i i = Some (PyFloat x)).
Proof.
  intros Hrun Hi. pose proof Hrun as (dist & Hp & Hm)%assemble_Ok.
  pose proof (assemble_entry float _ _ _ _ i i a a Hrun Hp Hi Hi) as Hii.
  split.
  - intros Hnone%(parse_phase_dist_None _ _ _ _ _ Hp).
    by rewrite Hnone in Hii.
  - intros v Hlast%(parse_phase_dist _ _ _ _ _ _ Hp).
    by rewrite Hlast in Hii.
Qed.

Lemma matrix_diagonal_witness :
  entry [[PyInt 0; PyFloat f0_001; PyInt 0];
         [PyFloat f0_001; PyInt 0; PyFloat f0_002];
         [PyInt 0; PyFloat f0_002; PyInt 0]] 1 1
    = Some (PyInt 0 : number spec_float) ∧
  ∃ x, py_float "0.5" = Some x ∧
       entry [[PyFloat f0_5]] 0 0 = Some (PyFloat x).
Proof.
  split.
  - apply (matrix_diagonal py_float (two_files "a.tsv" "b.tsv") _
             ["G1"; "G2"; "G3"] 1%nat "G2");
      [vm_compute; reflexivity | reflexivity |].
    apply (parse_phase_dist_None (two_files "a.tsv" "b.tsv")
             {[ ("G1", "G2") := "0.001"; ("G2", "G3") := "0.002" ]}
             ["G1"; "G2"; "G3"]);
      vm_compute; reflexivity.
  - apply (matrix_diagonal py_float self_pair _ ["A"] 0%nat "A");
      [vm_compute; reflexivity | reflexivity |].
    apply (parse_phase_dist self_pair {[ ("A", "A") := "0.5" ]} ["A"]);
      vm_compute; reflexivity.
Defined.

(** C2 as stated fails on [self_pair]: the only line records [A]
    against itself with [0.5], and the diagonal cell is that [0.5]. *)
Lemma matrix_diagonal_counterexample :
  assemble py_float self_pair = Ok ([[PyFloat f0_5]], ["A"]) ∧
  ¬ (∀ m names i a,
       assemble py_float self_pair = Ok (m, names) →
       names !! i = Some a → entry m i i = Some (PyInt 0)).
Proof.
  assert (assemble py_float self_pair = Ok ([[PyFloat f0_5]], ["A"]))
    as Hrun by (vm_compute; reflexivity).
  split; [exact Hrun|]. intros Hclaim.
  specialize (Hclaim _ _ 0%nat "A" Hrun eq_refl). vm_compute in Hclaim.
  discriminate Hclaim.
Qed.

Lemma elem_of_split_last {A} `{EqDecision A} (x : A) l :
  x ∈ l → ∃ l1 l2, l = l1 ++ x :: l2 ∧ x ∉ l2.
Proof.
  induction l as [|y l IH]; intros Hin; [by apply elem_of_nil in Hin|].
  destruct (decide (x ∈ l)) as [Hl|Hl].
  - destruct (IH Hl) as (l1 & l2 & -> & Hnot). by exists (y :: l1), l2.
  - apply elem_of_cons in Hin as [->|?]; [|done]. by exists [], l.
Qed.

Lemma records_app lines1 lines2 a b :
  records (lines1 ++ lines2) a b ↔ records lines1 a b ∨ records lines2 a b.
Proof.
  unfold records. split.
  - intros (line & v & [Hin|Hin]%elem_of_app & Hf); [left|right]; eauto.
  - intros [(line & v & Hin & Hf)|(line & v & Hin & Hf)];
      exists line, v; (split; [apply elem_of_app; auto|done]).
Qed.

(** The alphabetically last file that records a pair decides its value. *)
Lemma last_file_wins d file text a b v :
  file ∈ listdir d → content d !! file = Some text →
  last_record (readlines text) a b v →
  (∀ file' text', file' ∈ listdir d → content d !! file' = Some text' →
                  records (readlines text') a b → String.le file' file) →
  last_record (input_lines d) a b v.
Proof.
  intros Hin Htext (lpre & line & lpost & Hlines & Hf & Hlpost) Hlater.
  assert (StronglySorted String.le (sorted (listdir d))) as Hsorted.
  { apply Sorted_StronglySorted; [apply _|apply sorted_Sorted]. }
  apply elem_of_sorted, elem_of_split_last in Hin as (pre & post & Hfiles & Hnot).
  unfold input_lines. rewrite Hfiles in *. rewrite bind_app, bind_cons.
  rewrite Htext. simpl. rewrite Hlines.
  exists ((pre ≫= λ f, from_option readlines [] (content d !! f)) ++ lpre),
    line, (lpost ++ (post ≫= λ f, from_option readlines [] (content d !! f))).
  split_and!.
  - by rewrite <- !app_assoc.
  - done.
  - intros [?|(line' & v' & Hin' & Hf')]%records_app; [done|].
    apply list_elem_of_bind in Hin' as (file' & Hin' & Hpost).
    destruct (content d !! file') as [text'|] eqn:Htext'; simpl in Hin';
      [|by apply elem_of_nil in Hin'].
    assert (String.le file' file) as Hle.
    { apply (Hlater file' text'); [|done|by exists line', v'].
      apply elem_of_sorted. rewrite Hfiles.
      apply elem_of_app. right. by right. }
    assert (String.le file file') as Hge.
    { apply StronglySorted_app_1_r, StronglySorted_cons in Hsorted.
      destruct Hsorted as [Hall _]. by apply (proj1 (Forall_forall _ _) Hall). }
    assert (file' = file) as -> by by apply (anti_symm String.le).
    done.
Qed.

(** C4, as the code has it.  After the parse phase [dist] holds at most
    one distance text per ordered pair [(referenceID, queryID)]: the one
    of the last line that records this ordered pair, files taken by
    sorted name and lines from top to bottom, so that for a pair recorded
    in several files the alphabetically last of them decides.  The two
    orientations of a pair are two keys. *)
Theorem dist_last_write_wins d dist names :
  parse_phase d = Ok (dist, names) →
  (∀ a b v, dist !! (a, b) = Some v ↔ last_record (input_lines d) a b v) ∧
  (∀ file text a b v,
     file ∈ listdir d → content d !! file = Some text →
     last_record (readlines text) a b v →
     (∀ file' text', file' ∈ listdir d → content d !! file' = Some text' →
                     records (readlines text') a b → String.le file' file) →
     dist !! (a, b) = Some v).
Proof.
  intros Hp. split.
  - intros a b v. by apply parse_phase_dist with names.
  - intros file text a b v Hin Htext Hlast Hlater.
    apply (parse_phase_dist _ _ _ _ _ _ Hp). by eapply last_file_wins.
Qed.

Lemma dist_last_write_wins_witness :
  (∀ a b v,
     ({[ ("A", "B") := "0.5" ]} : gmap (string * string) string) !! (a, b)
       = Some v ↔
     last_record (input_lines overwritten) a b v) ∧
  (∀ file text a b v,
     file ∈ listdir overwritten → content overwritten !! file = Some text →
     last_record (readlines text) a b v →
     (∀ file' text',
        file' ∈ listdir overwritten →
        content overwritten !! file' = Some text' →
        records (readlines text') a b → String.le file' file) →
     ({[ ("A", "B") := "0.5" ]} : gmap (string * string) string) !! (a, b)
       = Some v).
Proof.
  apply (dist_last_write_wins overwritten _ ["A"; "B"]).
  vm_compute. reflexivity.
Defined.

(** C4 as stated fails on [both_orientations]: after the parse phase
    [dist] holds [0.1] under [(A, B)] and [0.2] under [(B, A)], two
    values for one unordered pair, each orientation under its own key. *)
Lemma dist_last_write_wins_counterexample :
  parse_phase both_orientations =
    Ok ({[ ("A", "B") := "0.1"; ("B", "A") := "0.2" ]}, ["A"; "B"]) ∧
  ¬ (∀ dist names a b v v',
       parse_phase both_orientations = Ok (dist, names) →
       dist !! (a, b) = Some v → dist !! (b, a) = Some v' → v = v').
Proof.
  assert (parse_phase both_orientations =
    Ok ({[ ("A", "B") := "0.1"; ("B", "A") := "0.2" ]}, ["A"; "B"]))
    as Hp by (vm_compute; reflexivity).
  split; [exact Hp|]. intros Hclaim.
  specialize (Hclaim _ _ "A" "B" "0.1" "0.2" Hp).
  discriminate Hclaim; vm_compute; reflexivity.
Qed.

Lemma parse_lines_exn st lines e :
  for_each parse_line st lines = Raise e → e = IndexError.
Proof.
  revert st; induction lines as [|line lines IH]; intros st; simpl; [done|].
  rewrite parse_line_fields. destruct (fields line); simpl; [apply IH|].
  congruence.
Qed.

Lemma parse_phase_exn d e :
  readable d → parse_phase d = Raise e → e = IndexError.
Proof.
  intros Hread. unfold parse_phase. rewrite parse_files_lines.
  2:{ intros file Hin. apply Hread. by apply elem_of_sorted. }
  destruct (for_each parse_line _ _) eqn:Hrun; simpl; [done|].
  intros [= <-]. by eapply parse_lines_exn.
Qed.

Lemma parse_phase_fields d dist names line :
  parse_phase d = Ok (dist, names) → line ∈ input_lines d →
  is_Some (fields line).
Proof.
  intros (_ & rs & Hrs & _)%parse_phase_Ok Hin.
  apply list_elem_of_lookup in Hin as [i Hi].
  destruct (Forall2_lookup_l _ _ _ _ _ Hrs Hi) as (r & _ & Hr). by exists r.
Qed.

(** C5, as the code has it.  A line with fewer than three fields aborts
    the run.  A distance text that [float] refuses aborts the run when it
    is the last one recorded for its ordered pair: [dist] keeps the text
    and [float] meets it only in the matrix phase, so a text overwritten
    by a later line for the same ordered pair is never read.  When every
    listed file can be opened the exception is [IndexError] or
    [ValueError]. *)
Theorem malformed_line_fatal {F} (float : string → option F) d :
  (∃ line, line ∈ input_lines d ∧ (length (split tab line) < 3)%nat) ∨
  (∃ a b v, last_record (input_lines d) a b v ∧ float v = None) →
  ∃ e, assemble float d = Raise e ∧
       (readable d → e = IndexError ∨ e = ValueError).
Proof.
  intros Hbad. destruct (parse_phase d) as [[dist names]|e] eqn:Hp.
  - exists ValueError. split; [|by right].
    destruct Hbad as [(line & Hin & Hshort)|(a & b & v & Hlast & Hv)].
    + apply fields_None in Hshort.
      destruct (parse_phase_fields _ _ _ _ Hp Hin) as [r Hr]. congruence.
    + apply (parse_phase_dist _ _ _ _ _ _ Hp) in Hlast.
      destruct (parse_phase_keys _ _ _ a b Hp) as [Ha Hb]; [by eexists|].
      apply (assemble_matrix_Raise float _ _ _ Hp).
      apply (matrix_phase_fails float _ _ a b Ha Hb).
      exists ValueError. unfold cell, to_float. by rewrite Hlast, Hv.
  - exists e. split; [by apply assemble_parse_Raise|].
    intros Hread. left. by eapply parse_phase_exn.
Qed.

Lemma malformed_line_fatal_witness :
  ∃ e, assemble py_float truncated = Raise e ∧
       (readable truncated → e = IndexError ∨ e = ValueError).
Proof.
  apply (malformed_line_fatal py_float truncated).
  left. exists ("A" +:+ String tab "B" +:+ String newline EmptyString).
  split; [vm_compute; left | vm_compute; lia].
Defined.

(** C5 as stated fails on [overwritten]: the first line has the distance
    field [abc], which [float] refuses; the second line records the same
    ordered pair with [0.5]; the run completes and the first line leaves
    no trace in the matrix. *)
Lemma malformed_line_fatal_counterexample :
  py_float "abc" = None ∧
  assemble py_float overwritten =
    Ok ([[PyInt 0; PyFloat f0_5]; [PyFloat f0_5; PyInt 0]], ["A"; "B"]) ∧
  ¬ (∀ line a b v,
       line ∈ input_lines overwritten → fields line = Some (a, b, v) →
       py_float v = None → is_Raise (assemble py_float overwritten)).
Proof.
  assert (assemble py_float overwritten =
    Ok ([[PyInt 0; PyFloat f0_5]; [PyFloat f0_5; PyInt 0]], ["A"; "B"]))
    as Hrun by (vm_compute; reflexivity).
  split_and!; [vm_compute; reflexivity|exact Hrun|]. intros Hclaim.
  destruct (Hclaim (mash_line "A" "B" "abc" "0" "900/1000") "A" "B" "abc")
    as [e He].
  - vm_compute. left.
  - vm_compute. reflexivity.
  - vm_compute. reflexivity.
  - rewrite Hrun in He. discriminate He.
Qed.

(** C6.  When every listed file can be opened and every line has at
    least three fields, the parse phase completes and [names] holds,
    each once, exactly the identifiers that stand in the first or the
    second column of some line of some file. *)
Theorem names_are_the_identifiers d :
  readable d →
  (∀ line, line ∈ input_lines d → (3 ≤ length (split tab line))%nat) →
  ∃ dist names,
    parse_phase d = Ok (dist, names) ∧ NoDup names ∧
    ∀ x, x ∈ names ↔
         ∃ line a b v, line ∈ input_lines d ∧
                       fields line = Some (a, b, v) ∧ (x = a ∨ x = b).
Proof.
  intros Hread Hwf.
  destruct (fields_total (input_lines d)) as [rs Hrs].
  { intros line Hin. destruct (fields line) eqn:Hf; [by eexists|].
    apply fields_None in Hf. specialize (Hwf line Hin). lia. }
  assert (parse_phase d =
    Ok ((foldl record_line (∅, []) rs).1,
        sorted (foldl record_line (∅, []) rs).2)) as Hp.
  { apply parse_phase_Ok. split; [done|]. by exists rs. }
  eexists _, _. split; [exact Hp|]. by apply parse_phase_names in Hp.
Qed.

Lemma names_are_the_identifiers_witness :
  ∃ dist names,
    parse_phase (two_files "a.tsv" "b.tsv") = Ok (dist, names) ∧
    NoDup names ∧
    ∀ x, x ∈ names ↔
         ∃ line a b v, line ∈ input_lines (two_files "a.tsv" "b.tsv") ∧
                       fields line = Some (a, b, v) ∧ (x = a ∨ x = b).
Proof.
  apply (names_are_the_identifiers (two_files "a.tsv" "b.tsv")).
  - intros file Hin. vm_compute in Hin.
    apply elem_of_cons in Hin as [->|Hin];
      [|apply list_elem_of_singleton in Hin as ->]; vm_compute; by eexists.
  - intros line Hin. vm_compute in Hin.
    apply elem_of_cons in Hin as [->|Hin];
      [|apply list_elem_of_singleton in Hin as ->]; vm_compute; lia.
Defined.

Lemma sorted_pair x y :
  sorted [x; y] = if decide (String.le x y) then [x; y] else [y; x].
Proof. unfold sorted, merge_sort. simpl. by destruct (decide (String.le x y)). Qed.

Lemma two_files_lines file1 file2 :
  file1 ≠ file2 →
  input_lines (two_files file1 file2) =
    (if decide (String.le file1 file2)
     then [mash_line "G1" "G2" "0.001" "0" "900/1000";
           mash_line "G2" "G3" "0.002" "0" "800/1000"]
     else [mash_line "G2" "G3" "0.002" "0" "800/1000";
           mash_line "G1" "G2" "0.001" "0" "900/1000"]) ∧
  readable (two_files file1 file2).
Proof.
  intros Hne.
  assert (content (two_files file1 file2) !! file1 =
          Some (mash_line "G1" "G2" "0.001" "0" "900/1000")) as H1.
  { simpl. apply lookup_insert_eq. }
  assert (content (two_files file1 file2) !! file2 =
          Some (mash_line "G2" "G3" "0.002" "0" "800/1000")) as H2.
  { simpl. rewrite lookup_insert_ne by done. apply lookup_singleton_eq. }
  split.
  - unfold input_lines.
    change (listdir (two_files file1 file2)) with [file1; file2].
    rewrite sorted_pair. case_decide.
    + rewrite !bind_cons, H1, H2. reflexivity.
    + rewrite !bind_cons, H1, H2. reflexivity.
  - intros file [->|Hin]%elem_of_cons; [by eexists|].
    apply list_elem_of_singleton in Hin as ->. by eexists.
Qed.

Lemma two_files_parse file1 file2 :
  file1 ≠ file2 →
  parse_phase (two_files file1 file2) =
    Ok ({[ ("G1", "G2") := "0.001"; ("G2", "G3") := "0.002" ]},
        ["G1"; "G2"; "G3"]).
Proof.
  intros Hne. destruct (two_files_lines file1 file2 Hne) as [Hlines Hread].
  apply parse_phase_Ok. split; [done|]. rewrite Hlines. case_decide.
  - exists [("G1", "G2", "0.001"); ("G2", "G3", "0.002")]. split_and!.
    + repeat constructor.
    + vm_compute. reflexivity.
    + vm_compute. reflexivity.
  - exists [("G2", "G3", "0.002"); ("G1", "G2", "0.001")]. split_and!.
    + repeat constructor.
    + vm_compute. reflexivity.
    + vm_compute. reflexivity.
Qed.

Lemma cell_lookup {F} (float : string → option F) dist a b o1 o2 n :
  dist !! (a, b) = o1 → dist !! (b, a) = o2 →
  match o1 with
  | Some v => to_float float v
  | None => match o2 with Some v => to_float float v | None => Ok (PyInt 0) end
  end = Ok n →
  cell float dist a b = Ok n.
Proof. intros <- <-. done. Qed.

(** Runs a [collect] over a list that is known, item by item. *)
Ltac each_item tac :=
  apply collect_Ok;
  repeat first
    [apply Forall2_nil; exact I
    |apply Forall2_cons; split; [lazy beta; tac|]].

(** C7.  Two files, one holding the line [G1 G2 0.001 0 900/1000] and
    the other the line [G2 G3 0.002 0 800/1000], under any two distinct
    names and whichever way they sort: the run completes with
    [names = [G1, G2, G3]] and
    [matrix = [[0, 0.001, 0], [0.001, 0, 0.002], [0, 0.002, 0]]], where
    [0.001] and [0.002] are what [float] reads from these texts. *)
Theorem two_files_scenario {F} (float : string → option F)
    file1 file2 x1 x2 :
  file1 ≠ file2 →
  float "0.001" = Some x1 → float "0.002" = Some x2 →
  assemble float (two_files file1 file2) =
    Ok ([[PyInt 0; PyFloat x1; PyInt 0];
         [PyFloat x1; PyInt 0; PyFloat x2];
         [PyInt 0; PyFloat x2; PyInt 0]],
        ["G1"; "G2"; "G3"]).
Proof.
  intros Hne Hx1 Hx2. apply assemble_Ok.
  exists {[ ("G1", "G2") := "0.001"; ("G2", "G3") := "0.002" ]}.
  split; [by apply two_files_parse|].
  unfold matrix_phase.
  each_item ltac:(each_item ltac:(
    eapply cell_lookup;
      [vm_compute; reflexivity | vm_compute; reflexivity
      |unfold to_float; rewrite ?Hx1, ?Hx2; reflexivity])).
Qed.

Lemma two_files_scenario_witness :
  "a.tsv" ≠ "b.tsv" ∧
  py_float "0.001" = Some f0_001 ∧ py_float "0.002" = Some f0_002 ∧
  assemble py_float (two_files "a.tsv" "b.tsv") =
    Ok ([[PyInt 0; PyFloat f0_001; PyInt 0];
         [PyFloat f0_001; PyInt 0; PyFloat f0_002];
         [PyInt 0; PyFloat f0_002; PyInt 0]],
        ["G1"; "G2"; "G3"]).
Proof.
  assert ("a.tsv" ≠ "b.tsv") as Hne by discriminate.
  assert (py_float "0.001" = Some f0_001) as H1 by (vm_compute; reflexivity).
  assert (py_float "0.002" = Some f0_002) as H2 by (vm_compute; reflexivity).
  split_and!; [exact Hne|exact H1|exact H2|].
  exact (two_files_scenario py_float "a.tsv" "b.tsv" f0_001 f0_002 Hne H1 H2).
Defined.

(** C8.  The run is a function of the directory, and of the listing only
    up to its order: two listings of the same files, in whatever order
    the operating system enumerates them, over the same contents give
    the same outcome, the same matrix and the same [names]. *)
Theorem listing_order_irrelevant {F} (float : string → option F) d1 d2 :
  listdir d1 ≡ₚ listdir d2 → content d1 = content d2 →
  assemble float d1 = assemble float d2.
Proof.
  intros Hperm Hcontent. unfold assemble, parse_phase.
  rewrite (sorted_unique _ _ Hperm).
  rewrite (for_each_ext (parse_file d1) (parse_file d2)); [done|].
  intros st file _. unfold parse_file, open. by rewrite Hcontent.
Qed.

Lemma listing_order_irrelevant_witness :
  assemble py_float (two_files "a.tsv" "b.tsv") =
  assemble py_float (two_files_relisted "a.tsv" "b.tsv").
Proof.
  apply (listing_order_irrelevant py_float
           (two_files "a.tsv" "b.tsv") (two_files_relisted "a.tsv" "b.tsv")).
  - apply perm_swap.
  - reflexivity.
Defined.

Lemma same_first_three_fields line1 line2 :
  same_first_three line1 line2 → fields line1 = fields line2.
Proof.
  unfold same_first_three, fields.
  destruct (split tab line1) as [|a1 [|b1 [|v1 r1]]];
    destruct (split tab line2) as [|a2 [|b2 [|v2 r2]]]; simpl;
    intros [=]; by subst.
Qed.

Lemma parse_lines_same_first_three st lines1 lines2 :
  Forall2 same_first_three lines1 lines2 →
  for_each parse_line st lines1 = for_each parse_line st lines2.
Proof.
  intros Hsame. revert st.
  induction Hsame as [|line1 line2 lines1 lines2 Hline _ IH]; intros st;
    simpl; [done|].
  rewrite !parse_line_fields, (same_first_three_fields _ _ Hline).
  destruct (fields line2); simpl; [apply IH|done].
Qed.

(** C9.  Of every line only the first three fields count: two
    directories with the same listing whose files have, line by line,
    the same first three fields (whatever stands in the p-value and the
    matching-hashes fields) give the same outcome, the same matrix and
    the same [names]. *)
Theorem later_fields_ignored {F} (float : string → option F) d1 d2 :
  listdir d1 = listdir d2 →
  (∀ file, file ∈ listdir d1 →
     option_Forall2
       (λ text1 text2,
          Forall2 same_first_three (readlines text1) (readlines text2))
       (content d1 !! file) (content d2 !! file)) →
  assemble float d1 = assemble float d2.
Proof.
  intros Hlist Hsame. unfold assemble, parse_phase. rewrite <- Hlist.
  rewrite (for_each_ext (parse_file d1) (parse_file d2)); [done|].
  intros st file Hin. apply (proj1 (elem_of_sorted _ _)) in Hin.
  unfold parse_file, open.
  destruct (Hsame file Hin) as [text1 text2 Htext|]; simpl; [|done].
  by apply parse_lines_same_first_three.
Qed.

Lemma later_fields_ignored_witness :
  assemble py_float (two_files "a.tsv" "b.tsv") =
  assemble py_float (two_files_other_tail "a.tsv" "b.tsv").
Proof.
  apply (later_fields_ignored py_float
           (two_files "a.tsv" "b.tsv") (two_files_other_tail "a.tsv" "b.tsv")).
  - reflexivity.
  - intros file Hin. vm_compute in Hin.
    apply elem_of_cons in Hin as [->|Hin];
      [|apply list_elem_of_singleton in Hin as ->].
    + change (content (two_files "a.tsv" "b.tsv") !! "a.tsv")
        with (Some (mash_line "G1" "G2" "0.001" "0" "900/1000")).
      change (content (two_files_other_tail "a.tsv" "b.tsv") !! "a.tsv")
        with (Some (mash_line "G1" "G2" "0.001" "1e-5" "1/1000")).
      constructor. vm_compute. repeat constructor.
    + change (content (two_files "a.tsv" "b.tsv") !! "b.tsv")
        with (Some (mash_line "G2" "G3" "0.002" "0" "800/1000")).
      change (content (two_files_other_tail "a.tsv" "b.tsv") !! "b.tsv")
        with (Some (mash_line "G2" "G3" "0.002" "0.5" "2/1000")).
      constructor. vm_compute. repeat constructor.
Defined.

(** C10.  A directory that lists no file, or only files without a line,
    is read without an exception: [names] is the empty list and [matrix]
    is the empty list of rows, and these are the arguments of
    [DistanceMatrix]. *)
Theorem no_line_no_matrix {F} (float : string → option F) d :
  (∀ file, file ∈ listdir d → content d !! file = Some EmptyString) →
  assemble float d = Ok ([], []).
Proof.
  intros Hempty.
  assert (parse_phase d = Ok (∅, [])) as Hp.
  { apply parse_phase_Ok. split.
    - intros file Hin. rewrite (Hempty file Hin). by eexists.
    - exists []. split_and!; [|done..].
      assert (input_lines d = []) as ->; [|constructor].
      unfold input_lines.
      assert (∀ file, file ∈ sorted (listdir d) →
                      content d !! file = Some EmptyString) as Hall.
      { intros file Hin. by apply Hempty, elem_of_sorted. }
      induction (sorted (listdir d)) as [|file files IH]; [done|].
      rewrite bind_cons, (Hall file) by left. simpl.
      apply IH. intros; apply Hall; by right. }
  unfold assemble. rewrite Hp. reflexivity.
Qed.

Lemma no_line_no_matrix_witness :
  assemble py_float empty_files = Ok ([], []).
Proof.
  apply (no_line_no_matrix py_float empty_files).
  intros file Hin. vm_compute in Hin.
  apply elem_of_cons in Hin as [->|Hin];
    [|apply list_elem_of_singleton in Hin as ->]; reflexivity.
Defined.

(** * Further properties of the two cells *)

(** ** The labels *)

Lemma StronglySorted_lookup {A} (R : relation A) l i j a b :
  StronglySorted R l → (i < j)%nat →
  l !! i = Some a → l !! j = Some b → R a b.
Proof.
  intros Hs. revert i j. induction Hs as [|x l Hs IH Hall]; intros i j Hij Hi Hj.
  - by rewrite lookup_nil in Hi.
  - destruct j as [|j]; [lia|]. destruct i as [|i]; simplify_eq/=.
    + apply (proj1 (Forall_forall _ _) Hall). by eapply list_elem_of_lookup_2.
    + apply (IH i j); [lia|done..].
Qed.

Lemma le_ne_ltb a b : String.le a b → a ≠ b → String.ltb a b = true.
Proof.
  unfold String.le, String.leb, String.ltb. intros Hle Hne.
  destruct (String.compare a b) eqn:Hc; [|done..].
  by apply String.compare_eq_iff in Hc.
Qed.

(** X1.  The labels handed to [DistanceMatrix] are strictly increasing
    by code points: an earlier label is smaller than a later one, so no
    label stands twice. *)
Theorem names_strictly_increasing {F} (float : string → option F)
    d m names i j a b :
  assemble float d = Ok (m, names) →
  (i < j)%nat → names !! i = Some a → names !! j = Some b →
  String.ltb a b = true.
Proof.
  intros (dist & Hp & _)%assemble_Ok Hij Hi Hj.
  destruct (parse_phase_names _ _ _ Hp) as [Hnd _].
  apply parse_phase_Ok in Hp as (_ & rs & _ & _ & Hnames).
  apply le_ne_ltb.
  - apply (StronglySorted_lookup String.le names i j); [|done..].
    rewrite Hnames. apply Sorted_StronglySorted; [apply _|apply sorted_Sorted].
  - intros ->. assert (i = j) by by eapply NoDup_lookup. lia.
Qed.

Lemma names_strictly_increasing_witness :
  String.ltb "G1" "G3" = true.
Proof.
  apply (names_strictly_increasing py_float (two_files "a.tsv" "b.tsv")
           [[PyInt 0; PyFloat f0_001; PyInt 0];
            [PyFloat f0_001; PyInt 0; PyFloat f0_002];
            [PyInt 0; PyFloat f0_002; PyInt 0]]
           ["G1"; "G2"; "G3"] 0%nat 2%nat);
    [vm_compute; reflexivity | lia | reflexivity | reflexivity].
Defined.

(** X2.  The matrix is square, with one row and one column per label:
    every pair of indices below the number of labels has a cell, and no
    other pair has one. *)
Theorem matrix_square {F} (float : string → option F) d m names :
  assemble float d = Ok (m, names) →
  length m = length names ∧
  (∀ row, row ∈ m → length row = length names) ∧
  (∀ i j, is_Some (entry m i j) ↔
          (i < length names)%nat ∧ (j < length names)%nat).
Proof.
  intros (dist & Hp & Hm)%assemble_Ok.
  destruct (matrix_phase_shape float _ _ _ Hm) as [Hlen Hrows].
  split_and!; [done| |].
  - intros row [i Hi]%list_elem_of_lookup. by eapply Hrows.
  - intros i j. unfold entry. destruct (m !! i) as [row|] eqn:Hrow; simpl.
    + rewrite lookup_lt_is_Some, (Hrows _ _ Hrow).
      apply lookup_lt_Some in Hrow. split; [lia|tauto].
    + apply lookup_ge_None in Hrow. split; [by intros [? [=]]|lia].
Qed.

Lemma matrix_square_witness :
  length [[PyInt 0; PyFloat f0_1]; [PyFloat f0_2; PyInt 0]] = length ["A"; "B"] ∧
  (∀ row, row ∈ [[PyInt 0; PyFloat f0_1]; [PyFloat f0_2; PyInt 0]] →
          length row = length ["A"; "B"]) ∧
  (∀ i j, is_Some (entry [[PyInt 0; PyFloat f0_1]; [PyFloat f0_2; PyInt 0]] i j)
          ↔ (i < length ["A"; "B"])%nat ∧ (j < length ["A"; "B"])%nat).
Proof.
  apply (matrix_square py_float both_orientations). vm_compute. reflexivity.
Defined.

(** ** [dist] against [names] *)

Lemma dist_is_Some_records d dist names a b :
  parse_phase d = Ok (dist, names) →
  is_Some (dist !! (a, b)) ↔ records (input_lines d) a b.
Proof.
  intros Hp. rewrite <- not_eq_None_Some.
  rewrite (parse_phase_dist_None _ _ _ a b Hp). split.
  - intros Hnn. destruct (dist !! (a, b)) as [v|] eqn:Hv.
    + apply (parse_phase_dist _ _ _ _ _ _ Hp) in Hv.
      destruct Hv as (pre & line & post & Hl & Hf & _).
      exists line, v. split; [|done]. rewrite Hl. apply elem_of_app.
      right. left.
    + apply (parse_phase_dist_None _ _ _ _ _ Hp) in Hv. tauto.
  - tauto.
Qed.

Lemma label_has_partner d dist names x :
  parse_phase d = Ok (dist, names) →
  x ∈ names ↔ ∃ y, y ∈ names ∧
                   (is_Some (dist !! (x, y)) ∨ is_Some (dist !! (y, x))).
Proof.
  intros Hp. destruct (parse_phase_names _ _ _ Hp) as [_ Hnames]. split.
  - intros (line & a & b & v & Hin & Hf & Hx)%Hnames.
    assert (is_Some (dist !! (a, b))) as Hab.
    { apply (dist_is_Some_records _ _ _ _ _ Hp). by exists line, v. }
    destruct (parse_phase_keys _ _ _ _ _ Hp Hab) as [Ha Hb].
    destruct Hx as [-> | ->]; [exists b|exists a]; auto.
  - intros (y & _ & [Hk|Hk]);
      by apply (parse_phase_keys _ _ _ _ _ Hp) in Hk as [? ?].
Qed.

(** X3.  After the parse phase the labels are exactly the names that
    stand in a key of [dist], on either side: every key of [dist] is
    made of two labels and every label has a recorded partner. *)
Theorem names_are_the_key_names d dist names :
  parse_phase d = Ok (dist, names) →
  (∀ a b, is_Some (dist !! (a, b)) → a ∈ names ∧ b ∈ names) ∧
  (∀ x, x ∈ names →
        ∃ y, y ∈ names ∧
             (is_Some (dist !! (x, y)) ∨ is_Some (dist !! (y, x)))).
Proof.
  intros Hp. split.
  - intros a b. by apply parse_phase_keys with d.
  - intros x. by apply label_has_partner with d.
Qed.

Lemma names_are_the_key_names_witness :
  (∀ a b,
     is_Some (({[ ("G1", "G2") := "0.001"; ("G2", "G3") := "0.002" ]}
                 : gmap (string * string) string) !! (a, b)) →
     a ∈ ["G1"; "G2"; "G3"] ∧ b ∈ ["G1"; "G2"; "G3"]) ∧
  (∀ x, x ∈ ["G1"; "G2"; "G3"] →
     ∃ y, y ∈ ["G1"; "G2"; "G3"] ∧
       (is_Some (({[ ("G1", "G2") := "0.001"; ("G2", "G3") := "0.002" ]}
                    : gmap (string * string) string) !! (x, y)) ∨
        is_Some (({[ ("G1", "G2") := "0.001"; ("G2", "G3") := "0.002" ]}
                    : gmap (string * string) string) !! (y, x)))).
Proof.
  apply (names_are_the_key_names (two_files "a.tsv" "b.tsv")).
  vm_compute. reflexivity.
Defined.

(** ** The cells *)

(** X4.  After a run that completes, a cell holds the default integer
    [0] exactly when no line records its two labels, in either
    orientation: a pair that was never measured and a genome against
    itself look the same. *)
Theorem default_iff_unrecorded {F} (float : string → option F)
    d m names i j a b :
  assemble float d = Ok (m, names) →
  names !! i = Some a → names !! j = Some b →
  entry m i j = Some (PyInt 0) ↔
  ¬ records (input_lines d) a b ∧ ¬ records (input_lines d) b a.
Proof.
  intros Hrun Hi Hj. pose proof Hrun as (dist & Hp & _)%assemble_Ok.
  pose proof (assemble_entry float _ _ _ _ i j a b Hrun Hp Hi Hj) as Hij.
  rewrite <- !(parse_phase_dist_None _ _ _ _ _ Hp).
  destruct (dist !! (a, b)) as [v|].
  { destruct Hij as (x & _ & ->). split; [done|]. by intros [[=] _]. }
  destruct (dist !! (b, a)) as [v|].
  { destruct Hij as (x & _ & ->). split; [done|]. by intros [_ [=]]. }
  by rewrite Hij.
Qed.

Lemma default_iff_unrecorded_witness :
  entry [[PyInt 0; PyFloat f0_001; PyInt 0];
         [PyFloat f0_001; PyInt 0; PyFloat f0_002];
         [PyInt 0; PyFloat f0_002; PyInt 0]] 0 2
    = Some (PyInt 0 : number spec_float) ↔
  ¬ records (input_lines (two_files "a.tsv" "b.tsv")) "G1" "G3" ∧
  ¬ records (input_lines (two_files "a.tsv" "b.tsv")) "G3" "G1".
Proof.
  apply (default_iff_unrecorded py_float (two_files "a.tsv" "b.tsv") _
           ["G1"; "G2"; "G3"] 0%nat 2%nat "G1" "G3");
    [vm_compute; reflexivity | reflexivity | reflexivity].
Defined.

(** X5.  After a run that completes, a float in the matrix is never
    made up: the cell of the labels [a] and [b] holds a float only if
    some line records [a] and [b], in one orientation or the other, and
    the float is what [float] reads from the third field of that line. *)
Theorem float_cell_comes_from_a_line {F} (float : string → option F)
    d m names i j a b x :
  assemble float d = Ok (m, names) →
  names !! i = Some a → names !! j = Some b →
  entry m i j = Some (PyFloat x) →
  ∃ line v, line ∈ input_lines d ∧ float v = Some x ∧
            (fields line = Some (a, b, v) ∨ fields line = Some (b, a, v)).
Proof.
  intros Hrun Hi Hj Hx. pose proof Hrun as (dist & Hp & _)%assemble_Ok.
  pose proof (assemble_entry float _ _ _ _ i j a b Hrun Hp Hi Hj) as Hij.
  assert (∀ a' b' v, dist !! (a', b') = Some v →
            ∃ line, line ∈ input_lines d ∧ fields line = Some (a', b', v))
    as Hline.
  { intros a' b' v (pre & line & post & Hl & Hf & _)%(parse_phase_dist _ _ _ _ _ _ Hp).
    exists line. split; [|done]. rewrite Hl. apply elem_of_app. right. left. }
  destruct (dist !! (a, b)) as [v|] eqn:Hab.
  { destruct Hij as (x' & Hv & Hij). destruct (Hline _ _ _ Hab) as (line & ? & ?).
    exists line, v. split_and!; [done|congruence|by left]. }
  destruct (dist !! (b, a)) as [v|] eqn:Hba; [|congruence].
  destruct Hij as (x' & Hv & Hij). destruct (Hline _ _ _ Hba) as (line & ? & ?).
  exists line, v. split_and!; [done|congruence|by right].
Qed.

Lemma float_cell_comes_from_a_line_witness :
  ∃ line v, line ∈ input_lines both_orientations ∧ py_float v = Some f0_2 ∧
            (fields line = Some ("B", "A", v) ∨ fields line = Some ("A", "B", v)).
Proof.
  apply (float_cell_comes_from_a_line py_float both_orientations
           [[PyInt 0; PyFloat f0_1]; [PyFloat f0_2; PyInt 0]] ["A"; "B"]
           1%nat 0%nat "B" "A" f0_2);
    [vm_compute; reflexivity | reflexivity..].
Defined.

(** X6.  After a run that completes, no row of the matrix is made of
    defaults only: every label was read from a line, and the cell of the
    label and of its partner on that line holds a float. *)
Theorem every_row_has_a_float {F} (float : string → option F) d m names i :
  assemble float d = Ok (m, names) →
  (i < length names)%nat →
  ∃ j x, entry m i j = Some (PyFloat x).
Proof.
  intros Hrun Hi. pose proof Hrun as (dist & Hp & _)%assemble_Ok.
  apply lookup_lt_is_Some in Hi as [a Hi].
  assert (a ∈ names) as Ha by by eapply list_elem_of_lookup_2.
  apply (label_has_partner _ _ _ _ Hp) in Ha as (b & Hb & Hkey).
  apply list_elem_of_lookup in Hb as [j Hj]. exists j.
  pose proof (assemble_entry float _ _ _ _ i j a b Hrun Hp Hi Hj) as Hij.
  destruct (dist !! (a, b)) as [v|].
  { destruct Hij as (x & _ & Hij). by exists x. }
  destruct (dist !! (b, a)) as [v|].
  { destruct Hij as (x & _ & Hij). by exists x. }
  destruct Hkey as [[? [=]]|[? [=]]].
Qed.

Lemma every_row_has_a_float_witness :
  ∃ j x, entry [[PyInt 0; PyFloat f0_001; PyInt 0];
                [PyFloat f0_001; PyInt 0; PyFloat f0_002];
                [PyInt 0; PyFloat f0_002; PyInt 0]] 2 j = Some (PyFloat x).
Proof.
  apply (every_row_has_a_float py_float (two_files "a.tsv" "b.tsv") _
           ["G1"; "G2"; "G3"] 2%nat);
    [vm_compute; reflexivity | simpl; lia].
Defined.

(** ** How a run ends *)










(** Closes [readable d] for a directory that is written out. *)
Ltac all_files_open :=
  let file := fresh "file" in
  let Hin := fresh "Hin" in
  intros file Hin; vm_compute in Hin;
  repeat (apply elem_of_cons in Hin as [->|Hin]);
  [vm_compute; by eexists..|by apply elem_of_nil in Hin].




(** ** What the outcome depends on *)

Lemma parse_phase_lines d1 d2 :
  readable d1 → readable d2 → input_lines d1 = input_lines d2 →
  parse_phase d1 = parse_phase d2.
Proof.
  intros Hr1 Hr2 Hlines. unfold parse_phase.
  rewrite !parse_files_lines.
  - fold (input_lines d1). fold (input_lines d2). by rewrite Hlines.
  - intros file Hin. apply Hr2. by apply elem_of_sorted.
  - intros file Hin. apply Hr1. by apply elem_of_sorted.
Qed.

(** X10.  Only the sequence of lines counts, not the files they sit in:
    two directories whose listed files can all be opened and whose
    lines, read file after file in sorted order, are the same sequence
    give the same outcome. *)
Theorem file_boundaries_irrelevant {F} (float : string → option F) d1 d2 :
  readable d1 → readable d2 → input_lines d1 = input_lines d2 →
  assemble float d1 = assemble float d2.
Proof.
  intros Hr1 Hr2 Hlines. unfold assemble.
  by rewrite (parse_phase_lines d1 d2).
Qed.

Lemma file_boundaries_irrelevant_witness :
  assemble py_float (two_files "a.tsv" "b.tsv") = assemble py_float one_file.
Proof.
  apply (file_boundaries_irrelevant py_float (two_files "a.tsv" "b.tsv") one_file);
    [all_files_open | all_files_open | vm_compute; reflexivity].
Defined.

Lemma parse_phase_sorted d dist names :
  parse_phase d = Ok (dist, names) → Sorted String.le names.
Proof.
  intros (_ & rs & _ & _ & ->)%parse_phase_Ok. apply sorted_Sorted.
Qed.

(** X11.  Of the lines only the last record of every ordered pair
    counts: two inputs on which the parse phase completes and in which
    every ordered pair ends with the same distance text leave the same
    [dist] and the same [names], and so the same outcome, whatever the
    order of the lines and whatever was overwritten on the way. *)
Theorem last_records_decide {F} (float : string → option F)
    d1 d2 dist1 names1 dist2 names2 :
  parse_phase d1 = Ok (dist1, names1) →
  parse_phase d2 = Ok (dist2, names2) →
  (∀ a b v, last_record (input_lines d1) a b v ↔
            last_record (input_lines d2) a b v) →
  dist1 = dist2 ∧ names1 = names2 ∧ assemble float d1 = assemble float d2.
Proof.
  intros Hp1 Hp2 Hsame.
  assert (dist1 = dist2) as ->.
  { apply map_eq. intros [a b]. apply option_eq. intros v.
    rewrite (parse_phase_dist _ _ _ a b v Hp1).
    rewrite (parse_phase_dist _ _ _ a b v Hp2). apply Hsame. }
  assert (names1 = names2) as ->.
  { apply (Sorted_unique String.le);
      [by eapply parse_phase_sorted | by eapply parse_phase_sorted |].
    apply NoDup_Permutation;
      [by eapply parse_phase_names | by eapply parse_phase_names |].
    intros x. rewrite (label_has_partner _ _ _ x Hp1).
    rewrite (label_has_partner _ _ _ x Hp2). split.
    - intros (y & _ & Hkey). exists y. split; [|done].
      destruct Hkey as [Hk|Hk];
        by apply (parse_phase_keys _ _ _ _ _ Hp2) in Hk as [? ?].
    - intros (y & _ & Hkey). exists y. split; [|done].
      destruct Hkey as [Hk|Hk];
        by apply (parse_phase_keys _ _ _ _ _ Hp1) in Hk as [? ?]. }
  split_and!; [done..|]. unfold assemble. by rewrite Hp1, Hp2.
Qed.

Lemma last_records_decide_witness :
  assemble py_float overwritten = assemble py_float last_line_only.
Proof.
  assert (parse_phase overwritten = Ok ({[ ("A", "B") := "0.5" ]}, ["A"; "B"]))
    as Hp1 by (vm_compute; reflexivity).
  assert (parse_phase last_line_only = Ok ({[ ("A", "B") := "0.5" ]}, ["A"; "B"]))
    as Hp2 by (vm_compute; reflexivity).
  apply (last_records_decide py_float overwritten last_line_only _ _ _ _ Hp1 Hp2).
  intros a b v.
  rewrite <- (parse_phase_dist _ _ _ a b v Hp1).
  by rewrite <- (parse_phase_dist _ _ _ a b v Hp2).
Defined.

(** ** Sizes *)

Lemma length_add_name names a :
  (length (add_name names a) ≤ S (length names))%nat.
Proof.
  unfold add_name. case_decide; [lia|]. rewrite length_app. simpl. lia.
Qed.

Lemma fold_sizes st rs :
  (size (foldl record_line st rs).1 ≤ size st.1 + length rs)%nat ∧
  (length (foldl record_line st rs).2 ≤ length st.2 + 2 * length rs)%nat.
Proof.
  induction rs as [|[[a b] v] rs [IH1 IH2]] using rev_ind; [simpl; lia|].
  rewrite foldl_record_snoc, record_line_dist, record_line_names.
  rewrite length_app. simpl. split.
  - pose proof (map_size_insert (a, b) v (foldl record_line st rs).1) as Hs.
    destruct (_ !! (a, b)); simpl in Hs; lia.
  - pose proof (length_add_name (add_name (foldl record_line st rs).2 a) b).
    pose proof (length_add_name (foldl record_line st rs).2 a). lia.
Qed.

(** X12.  The parse phase keeps at most one entry of [dist] per line
    read and at most two labels per line read, so the matrix has at most
    twice as many rows as the files have lines. *)
Theorem sizes_bounded_by_lines d dist names :
  parse_phase d = Ok (dist, names) →
  (size dist ≤ length (input_lines d))%nat ∧
  (length names ≤ 2 * length (input_lines d))%nat.
Proof.
  intros (_ & rs & Hrs & -> & ->)%parse_phase_Ok.
  rewrite (Forall2_length _ _ _ Hrs).
  destruct (fold_sizes (∅, []) rs) as [H1 H2]. simpl in H1, H2.
  rewrite map_size_empty in H1.
  rewrite (Permutation_length (sorted_Permutation _)). lia.
Qed.

Lemma sizes_bounded_by_lines_witness :
  (size ({[ ("A", "B") := "0.5" ]} : gmap (string * string) string)
     ≤ length (input_lines overwritten))%nat ∧
  (length ["A"; "B"] ≤ 2 * length (input_lines overwritten))%nat.
Proof.
  apply (sizes_bounded_by_lines overwritten). vm_compute. reflexivity.
Defined.

(** ** Lines and fields, character by character *)

Lemma concat_two sep x y l :
  String.concat sep (x :: y :: l) = x +:+ sep +:+ String.concat sep (y :: l).
Proof. reflexivity. Qed.

Lemma chars_app s t : chars (s +:+ t) = chars s ++ chars t.
Proof. induction s as [|c s IH]; [done|]. unfold chars in *. simpl. by f_equal. Qed.

Lemma readlines_nil s : readlines s = [] → s = EmptyString.
Proof.
  destruct s as [|c s]; [done|]. simpl.
  destruct (decide (c = newline)); [done|]. by destruct (readlines s).
Qed.

Lemma readlines_concat s : String.concat EmptyString (readlines s) = s.
Proof.
  induction s as [|c s IH]; [done|]. simpl.
  destruct (decide (c = newline)) as [->|Hc].
  - destruct (readlines s) as [|l ls] eqn:Hl.
    + by rewrite (readlines_nil s Hl).
    + rewrite concat_two, IH. reflexivity.
  - destruct (readlines s) as [|l [|y ls]] eqn:Hl.
    + by rewrite (readlines_nil s Hl).
    + simpl in *. by rewrite IH.
    + rewrite concat_two. rewrite concat_two in IH. by rewrite <- IH.
Qed.

Lemma readlines_shape s i line :
  readlines s !! i = Some line →
  closed_line line ∨ (open_line line ∧ S i = length (readlines s)).
Proof.
  revert i line.
  induction s as [|c s IH]; intros i line; [simpl; by rewrite lookup_nil|].
  simpl.
  destruct (decide (c = newline)) as [->|Hc].
  - destruct i as [|i]; simpl.
    + intros [= <-]. left. exists EmptyString. split; [done|].
      apply not_elem_of_nil.
    + intros [Hcl|[Hop Hlen]]%IH; [by left|]. right. split; [done|lia].
  - destruct (readlines s) as [|l ls] eqn:Hl.
    + destruct i as [|i]; [|done]. intros [= <-]. right. split; [|done].
      split; [done|]. unfold chars. simpl.
      intros Hin%list_elem_of_singleton. by subst c.
    + destruct i as [|i]; simpl.
      * intros [= <-]. destruct (IH 0%nat l eq_refl) as [Hcl|[Hop Hlen]].
        -- left. destruct Hcl as (body & -> & Hbody). exists (String c body).
           split; [done|]. unfold chars in *. simpl.
           intros [Heq|?]%elem_of_cons; [by subst c|done].
        -- right. split; [|done]. destruct Hop as [_ Hop]. split; [done|].
           unfold chars in *. simpl.
           intros [Heq|?]%elem_of_cons; [by subst c|done].
      * intros Hline. destruct (IH (S i) line Hline) as [?|[? ?]]; auto.
Qed.


(** X13.  Reading a text line by line loses nothing and cuts only behind
    a line feed: the lines put together again are the text, every line
    but the last ends with its only line feed, and the last line either
    does too or is not empty and has no line feed. *)
Theorem readlines_cuts_after_line_feeds s :
  String.concat EmptyString (readlines s) = s ∧
  ∀ i line, readlines s !! i = Some line →
            closed_line line ∨
            (open_line line ∧ S i = length (readlines s)).
Proof.
  split; [apply readlines_concat|]. intros i line. apply readlines_shape.
Qed.

Lemma split_pieces sep s piece :
  piece ∈ split sep s → sep ∉ chars piece.
Proof.
  revert piece. induction s as [|c s IH]; intros piece; simpl.
  - intros ->%list_elem_of_singleton. apply not_elem_of_nil.
  - destruct (decide (c = sep)) as [->|Hc].
    + intros [->|Hin]%elem_of_cons; [apply not_elem_of_nil|by apply IH].
    + destruct (split sep s) as [|f fs] eqn:Hs.
      * intros ->%list_elem_of_singleton. unfold chars. simpl.
        intros Heq%list_elem_of_singleton. by subst c.
      * intros [->|Hin]%elem_of_cons.
        -- unfold chars. simpl. intros [Heq|Hf]%elem_of_cons; [by subst c|].
           by apply (IH f); [left|].
        -- apply IH. by right.
Qed.

Lemma split_concat sep s :
  String.concat (String sep EmptyString) (split sep s) = s.
Proof.
  induction s as [|c s IH]; [done|]. simpl.
  destruct (decide (c = sep)) as [->|Hc].
  - destruct (split sep s) as [|f fs] eqn:Hs; [by apply split_not_nil in Hs|].
    rewrite concat_two, IH. reflexivity.
  - destruct (split sep s) as [|f [|y fs]] eqn:Hs.
    + by apply split_not_nil in Hs.
    + simpl in *. by rewrite IH.
    + rewrite concat_two. rewrite concat_two in IH. by rewrite <- IH.
Qed.

Lemma split_length sep s :
  length (split sep s) = S (length (filter (λ c, c = sep) (chars s))).
Proof.
  induction s as [|c s IH]; [done|]. unfold chars in *. simpl.
  rewrite filter_cons. destruct (decide (c = sep)) as [->|Hc]; simpl.
  - by rewrite IH.
  - destruct (split sep s) as [|f fs] eqn:Hs; [by apply split_not_nil in Hs|].
    simpl in *. done.
Qed.

(** X14.  Splitting a line at the separator loses nothing and leaves no
    separator behind: the pieces joined by the separator are the line,
    no piece holds the separator, and there is one piece more than the
    line has separators, so never none. *)
Theorem split_cuts_at_separators sep s :
  String.concat (String sep EmptyString) (split sep s) = s ∧
  (∀ piece, piece ∈ split sep s → sep ∉ chars piece) ∧
  length (split sep s) = S (length (filter (λ c, c = sep) (chars s))).
Proof.
  split_and!; [apply split_concat|apply split_pieces|apply split_length].
Qed.

Lemma prefix_of_snoc {A} (p q body : list A) y z x :
  p ++ y :: q = body ++ [z] → x ∈ p → x ∈ body.
Proof.
  revert body. induction p as [|h p IH]; intros body Heq Hx.
  - by apply elem_of_nil in Hx.
  - destruct body as [|h' body]; simplify_eq/=.
    + by destruct p.
    + apply elem_of_cons in Hx as [->|Hx]; [left|right; by eapply IH].
Qed.

Lemma fields_chars line a b v :
  fields line = Some (a, b, v) →
  ∃ rest, chars line = chars a ++ tab :: chars b ++ tab :: rest.
Proof.
  intros [r Hsplit]%fields_Some.
  pose proof (split_concat tab line) as Hline. rewrite Hsplit in Hline.
  rewrite !concat_two in Hline. exists (chars (String.concat (String tab EmptyString) (v :: r))).
  rewrite <- Hline at 1. by rewrite !chars_app.
Qed.

Lemma input_line_shape d line :
  line ∈ input_lines d → closed_line line ∨ open_line line.
Proof.
  unfold input_lines. intros (file & Hin & _)%list_elem_of_bind.
  destruct (content d !! file) as [text|]; simpl in Hin;
    [|by apply elem_of_nil in Hin].
  apply list_elem_of_lookup in Hin as [i Hi].
  destruct (readlines_shape text i line Hi) as [?|[? _]]; auto.
Qed.

(** X15.  No label holds a tab or a line feed: a label is the first or
    the second field of a line with at least three fields, so it holds
    no tab, and the only line feed of a line stands at its end, behind
    the second tab. *)
Theorem labels_have_no_separator d dist names x :
  parse_phase d = Ok (dist, names) → x ∈ names →
  (tab ∉ chars x) ∧ (newline ∉ chars x).
Proof.
  intros Hp Hx.
  destruct (parse_phase_names _ _ _ Hp) as [_ Hnames].
  apply Hnames in Hx as (line & a & b & v & Hin & Hf & Hx).
  pose proof Hf as [r Hsplit]%fields_Some.
  assert ((tab ∉ chars a) ∧ (tab ∉ chars b)) as [Hta Htb].
  { split; apply (split_pieces tab line); rewrite Hsplit.
    - left.
    - right. left. }
  destruct (fields_chars _ _ _ _ Hf) as [rest Hchars].
  assert ((newline ∉ chars a) ∧ (newline ∉ chars b)) as [Hna Hnb].
  { destruct (input_line_shape _ _ Hin) as [(body & -> & Hbody)|[_ Hopen]].
    - rewrite chars_app in Hchars. split; intros Hnl; apply Hbody.
      + by apply (prefix_of_snoc (chars a) (chars b ++ tab :: rest)
                    _ tab newline newline).
      + apply (prefix_of_snoc (chars a ++ tab :: chars b) rest
                 _ tab newline newline).
        * rewrite <- app_assoc. symmetry. exact Hchars.
        * apply elem_of_app. right. by right.
    - rewrite Hchars in Hopen. split; intros Hnl; apply Hopen.
      + apply elem_of_app. by left.
      + apply elem_of_app. right. right. apply elem_of_app. by left. }
  by destruct Hx as [-> | ->].
Qed.

Lemma labels_have_no_separator_witness :
  (tab ∉ chars "G2") ∧ (newline ∉ chars "G2").
Proof.
  apply (labels_have_no_separator (two_files "a.tsv" "b.tsv")
           {[ ("G1", "G2") := "0.001"; ("G2", "G3") := "0.002" ]}
           ["G1"; "G2"; "G3"] "G2").
  - vm_compute. reflexivity.
  - right. left.
Defined.
